(** * palette-webpack-plugin: the colour reconciliation pipeline

    A shallow embedding of [src/index.js] (class [PaletteWebpackPlugin]):
    [build], [tailwind], [transform], [title], [isGrayscale] and
    [maybeGrayscale], together with the lodash and JavaScript primitives
    they are written with.

    Conventions of the embedding.
    - A JavaScript string is a [string]: a sequence of code units, here the
      code units below 256.  [<] on strings is the code-unit lexicographic
      order, which is [String.ltb].
    - A JavaScript number is an IEEE 754 binary64 value: a primitive [float].
    - A function that can throw returns a [result].
    - An object literal used as a map is an association list in the order in
      which [Object.keys] enumerates it.
    - Arrays of objects hold references ([loc]) into a store ([heap]), since
      [_.union] compares objects by identity. *)

From Stdlib Require Import List String Ascii Bool Arith NArith ZArith Lia.
From Stdlib Require Import Permutation Sorted Floats DecimalString.
Import ListNotations.

Set Warnings "-inexact-float".
Local Open Scope string_scope.
Local Open Scope list_scope.

(** ** JavaScript primitives *)

Module JS.

(** Exceptions raised by the runtime. *)
Inductive error : Type :=
| TypeError (msg : string).

(** The outcome of a call that may throw. *)
Inductive result (A : Type) : Type :=
| Ok (a : A)
| Throw (e : error).
Arguments Ok {A} a.
Arguments Throw {A} e.

Definition ret {A} (a : A) : result A := Ok a.

Definition bind {A B} (m : result A) (k : A -> result B) : result B :=
  match m with
  | Ok a => k a
  | Throw e => Throw e
  end.

(** [arr.map(f)] for a callback that may throw: the first exception
    aborts the traversal. *)
Fixpoint mapM {A B} (f : A -> result B) (l : list A) : result (list B) :=
  match l with
  | [] => Ok []
  | x :: l' =>
      bind (f x) (fun y => bind (mapM f l') (fun ys => Ok (y :: ys)))
  end.

(** A property value as far as the plugin meets them: [undefined], a
    string, an array length, or an object literal of strings. *)
Inductive value : Type :=
| Undefined
| Str (s : string)
| Len (n : nat)
| Obj (o : list (string * string)).

(** The decimal numeral of a natural number, as [String(n)] prints it. *)
Definition decimal (n : nat) : string :=
  NilZero.string_of_uint (Nat.to_uint n).

(** [ToString]: what string concatenation and [RegExp.prototype.test(v)]
    see of [v]. *)
Definition toString (v : value) : string :=
  match v with
  | Undefined => "undefined"
  | Str s => s
  | Len n => decimal n
  | Obj _ => "[object Object]"
  end.

(** Code-unit classes. *)
Definition code (c : ascii) : nat := nat_of_ascii c.

Definition isUpper (c : ascii) : bool :=
  let n := code c in
  (((65 <=? n) && (n <=? 90))
   || ((192 <=? n) && (n <=? 222) && negb (n =? 215)))%nat.

Definition isWhiteSpace (c : ascii) : bool :=
  let n := code c in
  (((9 <=? n) && (n <=? 13)) || (n =? 32) || (n =? 160))%nat.

Definition isLineTerminator (c : ascii) : bool :=
  let n := code c in ((n =? 10) || (n =? 13))%nat.

Definition lowerChar (c : ascii) : ascii :=
  if isUpper c then ascii_of_nat (code c + 32) else c.

(** [String.prototype.toLowerCase]. *)
Fixpoint toLowerCase (s : string) : string :=
  match s with
  | EmptyString => EmptyString
  | String c s' => String (lowerChar c) (toLowerCase s')
  end.

Fixpoint trimStart (s : string) : string :=
  match s with
  | EmptyString => EmptyString
  | String c s' => if isWhiteSpace c then trimStart s' else s
  end.

Fixpoint trimEnd (s : string) : string :=
  match s with
  | EmptyString => EmptyString
  | String c s' =>
      match trimEnd s' with
      | EmptyString => if isWhiteSpace c then EmptyString else String c EmptyString
      | t => String c t
      end
  end.

(** [String.prototype.trim], which is also [_.trim] with one argument. *)
Definition trim (s : string) : string := trimEnd (trimStart s).

(** [Array.prototype.includes] on an array of strings. *)
Definition includes (l : list string) (x : string) : bool :=
  existsb (String.eqb x) l.

(** Own-property lookup [o[k]] on an object literal. *)
Fixpoint get {V} (o : list (string * V)) (k : string) : option V :=
  match o with
  | [] => None
  | (k', v) :: o' => if String.eqb k k' then Some v else get o' k
  end.

(** [Object.keys(o)]. *)
Definition keys {V} (o : list (string * V)) : list string := map fst o.

(** [Object.prototype.hasOwnProperty.call(o, k)]: [k] is an own key of
    [o]. This is the test [_.has] makes. *)
Definition hasOwnProperty {V} (o : list (string * V)) (k : string) : bool :=
  includes (keys o) k.

(** [o.hasOwnProperty(k)], the method being looked up on [o] itself: an
    own property named [hasOwnProperty] shadows the inherited method, and
    the values of an object literal of strings are not callable. *)
Definition callHasOwnProperty (o : list (string * string)) (k : string)
  : result bool :=
  if hasOwnProperty o "hasOwnProperty"
  then Throw (TypeError "hasOwnProperty is not a function")
  else Ok (hasOwnProperty o k).

(** A property read from a number-valued field: the number, or
    [undefined] when the object has no such field. *)
Definition field : Type := option float.

(** [x === y] on two such fields. *)
Definition strictEq (x y : field) : bool :=
  match x, y with
  | None, None => true
  | Some a, Some b => PrimFloat.eqb a b
  | _, _ => false
  end.

End JS.

Import JS.

Notation "x <- m ;; k" := (JS.bind m (fun x => k))
  (at level 61, m at next level, right associativity).

(** ** lodash *)

Module Lodash.

Section Collections.
Context {A K : Type}.
Variable sameValueZero : K -> K -> bool.
Variable iteratee : A -> K.

(** [baseUniq]: walk the array, keep an element when its computed key
    is not among the keys [seen] so far. *)
Fixpoint baseUniq (seen : list K) (array : list A) : list A :=
  match array with
  | [] => []
  | x :: rest =>
      if existsb (sameValueZero (iteratee x)) seen
      then baseUniq seen rest
      else x :: baseUniq (iteratee x :: seen) rest
  end.

(** [_.uniqBy(array, iteratee)]. *)
Definition uniqBy (array : list A) : list A := baseUniq [] array.
End Collections.

(** [baseFlatten(arrays, 1, isArrayLikeObject, true)]: one level, and an
    argument that is not an array ([undefined]) is skipped. *)
Fixpoint baseFlatten {A} (arrays : list (option (list A))) : list A :=
  match arrays with
  | [] => []
  | Some a :: rest => a ++ baseFlatten rest
  | None :: rest => baseFlatten rest
  end.

(** [_.union(...arrays)] on arrays of object references. *)
Definition union (arrays : list (option (list nat))) : list nat :=
  uniqBy Nat.eqb (fun x => x) (baseFlatten arrays).

(** [_.partition(collection, predicate)] is [List.partition]; this is the
    same traversal for a predicate that may throw. *)
Fixpoint partitionM {A} (predicate : A -> result bool) (collection : list A)
  : result (list A * list A) :=
  match collection with
  | [] => Ok ([], [])
  | x :: rest =>
      b <- predicate x ;;
      p <- partitionM predicate rest ;;
      Ok (if b : bool then (x :: fst p, snd p) else (fst p, x :: snd p))
  end.

Section SortBy.
Context {A : Type}.
Variable iteratee : A -> string.

(** [compareAscending] on strings is [<] and [>]; [_.sortBy] is stable,
    ties keep the order of the input. *)
Fixpoint insert (x : A) (sorted : list A) : list A :=
  match sorted with
  | [] => [x]
  | y :: rest =>
      if String.leb (iteratee x) (iteratee y)
      then x :: sorted
      else y :: insert x rest
  end.

(** [_.sortBy(collection, iteratee)]. *)
Fixpoint sortBy (collection : list A) : list A :=
  match collection with
  | [] => []
  | x :: rest => insert x (sortBy rest)
  end.
End SortBy.

(** [_.isEmpty] on an optional string argument. *)
Definition isEmpty (s : option string) : bool :=
  match s with
  | None => true
  | Some EmptyString => true
  | Some _ => false
  end.

End Lodash.

Import Lodash.

(** ** The regular expression of [build] *)

Module Notation.

(** [s] starts with [p], letters compared case-insensitively; the rest of
    [s] is returned. [p] is in lower case. *)
Fixpoint stripPrefix (p s : string) : option string :=
  match p, s with
  | EmptyString, _ => Some s
  | String a p', String c s' =>
      if Ascii.eqb a (lowerChar c) then stripPrefix p' s' else None
  | String _ _, EmptyString => None
  end.

(** [.*\)$]: no line terminator up to a closing parenthesis that ends
    the input. *)
Fixpoint closes (s : string) : bool :=
  match s with
  | EmptyString => false
  | String c EmptyString => Ascii.eqb c ")"
  | String c s' => negb (isLineTerminator c) && closes s'
  end.

(** [\(.+?\)$] *)
Definition call (s : string) : bool :=
  match s with
  | String "(" (String c s') => negb (isLineTerminator c) && closes s'
  | _ => false
  end.

(** [a?\(.+?\)$] *)
Definition alphaCall (s : string) : bool :=
  match s with
  | String c s' => if Ascii.eqb "a" (lowerChar c) then call s' else call s
  | EmptyString => false
  end.

(** [/^(?:rgb|hsl)a?\(.+?\)$/i.test(s)] *)
Definition test (s : string) : bool :=
  match stripPrefix "rgb" s with
  | Some rest => alphaCall rest
  | None =>
      match stripPrefix "hsl" s with
      | Some rest => alphaCall rest
      | None => false
      end
  end.

End Notation.

(** ** External libraries

    d3-color, d3-hsv and the two lodash case converters are dependencies of
    the plugin; the pipeline is stated over any implementation of them. *)

Module D3.

(** What [const { r, g, b } = d3Color(color)] reads from the parsed
    object; a field the object does not have reads as [undefined]. *)
Record Color : Type := mkColor { r : field; g : field; b : field }.

(** The object returned by [d3Hsv]; its constructor coerces the three
    components to numbers. *)
Record Hsv : Type := mkHsv { h : float; s : float; v : float }.

Class Parser : Type := {
  (** [color(format)]: [None] is the [null] returned for a string that
      is not a colour. *)
  d3Color : string -> option Color;
  (** [hsv(format)]: always an object, with [NaN] components for a
      string that is not a colour. *)
  d3Hsv : string -> Hsv
}.

End D3.

Class Casing : Type := {
  camelCase : string -> string;
  startCase : string -> string
}.

(** ** Data model *)

(** One palette entry, as [transform] builds it. *)
Record ColorEntry : Type := mkEntry {
  name : string;
  slug : string;
  color : value
}.

(** A value of the Tailwind colour table: a colour, or shades. *)
Inductive ColorValue : Type :=
| Plain (c : string)
| Shaded (o : list (string * string)).

Definition ShadeTable : Type := list (string * ColorValue).

(** [options.tailwind.shades]: a boolean, an array of shade keys, or an
    object from shade key to label. *)
Inductive Shades : Type :=
| ShadesBool (flag : bool)
| ShadesArray (a : list string)
| ShadesObject (o : list (string * string)).

Record TailwindOptions : Type := { shades : Shades }.

Record Options : Type := {
  blacklist : list string;
  tailwind_options : TailwindOptions
}.

(** The receiver [this]: the merged options, and [this.tailwind] once
    [tailwind()] has stored the resolved colour table in it. *)
Record Plugin : Type := {
  options : Options;
  tailwind_table : ShadeTable
}.

(** Object references and the store they point into. *)
Definition loc : Type := nat.
Definition heap : Type := loc -> ColorEntry.

(** ** Shade options seen through JavaScript's dynamic tests *)

Definition truthy (sh : Shades) : bool :=
  match sh with
  | ShadesBool flag => flag
  | _ => true
  end.

Definition isArray (sh : Shades) : bool :=
  match sh with
  | ShadesArray _ => true
  | _ => false
  end.

Definition isObject (sh : Shades) : bool :=
  match sh with
  | ShadesBool _ => false
  | _ => true
  end.

(** The index named by a property key, when the key is an array index
    below [len]. *)
Definition indexOfKey (len : nat) (k : string) : option nat :=
  find (fun i => String.eqb k (decimal i)) (seq 0 len).

(** [shades.includes(value)] *)
Definition shadesIncludes (sh : Shades) (x : string) : bool :=
  match sh with
  | ShadesArray a => includes a x
  | _ => false
  end.

(** [Object.keys(shades)] *)
Definition shadesKeys (sh : Shades) : list string :=
  match sh with
  | ShadesBool _ => []
  | ShadesArray a => map decimal (seq 0 (List.length a))
  | ShadesObject o => keys o
  end.

(** [_.has(shades, description)] for a key that is a single property name
    (no [.] and no bracket, so lodash does not read it as a path): an own
    property of the options value. An array owns its indices and
    [length]. *)
Definition has (sh : Shades) (description : string) : bool :=
  match sh with
  | ShadesBool _ => false
  | ShadesArray a =>
      match indexOfKey (List.length a) description with
      | Some _ => true
      | None => String.eqb description "length"
      end
  | ShadesObject o => hasOwnProperty o description
  end.

(** [`${shades[description]}`] *)
Definition shadesAt (sh : Shades) (description : string) : string :=
  match sh with
  | ShadesBool _ => "undefined"
  | ShadesArray a =>
      match indexOfKey (List.length a) description with
      | Some i => nth i a "undefined"
      | None =>
          if String.eqb description "length"
          then decimal (List.length a)
          else "undefined"
      end
  | ShadesObject o =>
      match get o description with
      | Some label => label
      | None => "undefined"
      end
  end.

(** [this.tailwind[key]] as a value. *)
Definition tableAt (t : ShadeTable) (key : string) : value :=
  match get t key with
  | None => Undefined
  | Some (Plain c) => Str c
  | Some (Shaded o) => Obj o
  end.

(** [this.tailwind[key][value]] for an own property name: reading a
    property of [undefined] throws, a string owns its indices and
    [length], an object literal its keys. Inherited members are outside
    the model. *)
Definition tableAt2 (t : ShadeTable) (key value : string) : result JS.value :=
  match get t key with
  | None => Throw (TypeError "Cannot read properties of undefined")
  | Some (Plain c) =>
      match indexOfKey (String.length c) value with
      | Some i => Ok (Str (substring i 1 c))
      | None =>
          if String.eqb value "length"
          then Ok (Len (String.length c))
          else Ok Undefined
      end
  | Some (Shaded o) =>
      match get o value with
      | Some c => Ok (Str c)
      | None => Ok Undefined
      end
  end.

(** ** The methods of [PaletteWebpackPlugin] *)

Section Methods.
Context {parser : D3.Parser} {casing : Casing}.

(** [isGrayscale(color)]: destructuring the [null] of a rejected string
    throws. *)
Definition isGrayscale (color : value) : result bool :=
  match D3.d3Color (toString color) with
  | None => Throw (TypeError "Cannot destructure property 'r' of null")
  | Some c =>
      Ok (strictEq (D3.r c) (D3.g c) && strictEq (D3.r c) (D3.b c))
  end.

(** The curve [v = 1.3 / (1 + 8.5 * s)]. *)
Definition belowCurve (s v : float) : bool :=
  (v <? 1.3 / (1 + 8.5 * s))%float.

(** [maybeGrayscale(color)] *)
Definition maybeGrayscale (color : value) : bool :=
  let hsv := D3.d3Hsv (toString color) in
  belowCurve (D3.s hsv) (D3.v hsv).

(** The three predicates [build] partitions with. *)
Definition parses (hp : heap) (value : loc) : bool :=
  match D3.d3Color (toString (color (hp value))) with
  | Some _ => true
  | None => false
  end.

Definition looksLikeCall (hp : heap) (value : loc) : bool :=
  Notation.test (toString (color (hp value))).

Definition grayish (hp : heap) (value : loc) : result bool :=
  gray <- isGrayscale (color (hp value)) ;;
  if gray : bool then Ok true else Ok (maybeGrayscale (color (hp value))).

(** The four buckets of [build], in the order
    [(notGrayscale, falsePositives, notColors, grayscale)]. *)
Definition buckets (hp : heap) (objects : list (option (list loc)))
  : result (list loc * list loc * list loc * list loc) :=
  let collection := uniqBy String.eqb (fun x => name (hp x)) (union objects) in
  let '(colors, maybeColors) := partition (parses hp) collection in
  let '(falsePositives, notColors) := partition (looksLikeCall hp) maybeColors in
  p <- partitionM (grayish hp) colors ;;
  let '(grayscale, notGrayscale) := p in
  Ok (notGrayscale, falsePositives, notColors, grayscale).

(** [build(...objects)] *)
Definition build (hp : heap) (objects : list (option (list loc)))
  : result (list loc) :=
  bk <- buckets hp objects ;;
  let '(notGrayscale, falsePositives, notColors, grayscale) := bk in
  Ok (flat_map (fun color => sortBy (fun x => name (hp x)) color)
        [notGrayscale ++ falsePositives ++ notColors; grayscale]).

(** [title(value, description)]; [self] is the recursive call, which
    is made with one argument. *)
Definition titleBody (self : string -> string) (this : Plugin)
    (value : string) (description : option string) : string :=
  let value := startCase (camelCase value) in
  let shades := shades (tailwind_options (options this)) in
  match description with
  | Some d =>
      if negb (isEmpty description) && isObject shades && has shades d
      then trim (shadesAt shades d ++ " " ++ value)
      else value ++ (if negb (isEmpty description)
                     then " (" ++ self d ++ ")"
                     else EmptyString)
  | None => value ++ EmptyString
  end.

Definition title (this : Plugin) (value : string)
    (description : option string) : string :=
  titleBody (fun d => titleBody (fun _ => EmptyString) this d None)
    this value description.

(** [transform(key, value, isSass = false)]; an omitted [value] is
    [None]. *)
Definition transform (this : Plugin) (key : string) (value : option string)
    (isSass : bool) : result ColorEntry :=
  if isSass then
    Ok {| name := title this key None;
          slug := key;
          color := match value with Some c => Str c | None => Undefined end |}
  else
    match value with
    | None | Some EmptyString =>
        Ok {| name := title this key None;
              slug := key;
              color := tableAt (tailwind_table this) key |}
    | Some value =>
        if String.eqb "default" (toLowerCase value) then
          c <- tableAt2 (tailwind_table this) key value ;;
          Ok {| name := title this key None; slug := key; color := c |}
        else
          c <- tableAt2 (tailwind_table this) key value ;;
          Ok {| name := if truthy (shades (tailwind_options (options this)))
                        then title this key (Some value)
                        else title this key None;
                slug := key ++ "-" ++ value;
                color := c |}
    end.

(** What the [flatMap] callback of [tailwind] returns: nothing
    ([return;]), one entry, or an array of entries. *)
Inductive Emitted : Type :=
| Nothing
| One (e : ColorEntry)
| Many (es : list ColorEntry).

(** [flatMap] flattens arrays one level and keeps anything else as an
    element. *)
Definition flatten (x : Emitted) : list (option ColorEntry) :=
  match x with
  | Nothing => [None]
  | One e => [Some e]
  | Many es => map Some es
  end.

(** [.filter((value) => !!value)]: an entry is truthy, [undefined] is
    not. *)
Fixpoint compact (l : list (option ColorEntry)) : list ColorEntry :=
  match l with
  | [] => []
  | Some e :: l' => e :: compact l'
  | None :: l' => compact l'
  end.

(** The callback of [tailwind], for one key of the colour table. *)
Definition resolve (this : Plugin) (key : string) : result Emitted :=
  let shades := shades (tailwind_options (options this)) in
  if String.eqb key EmptyString || includes (blacklist (options this)) key then
    Ok Nothing
  else
    match get (tailwind_table this) key with
    | None => Throw (TypeError "Cannot read properties of undefined")
    | Some (Plain _) =>
        e <- transform this key None false ;; Ok (One e)
    | Some (Shaded o) =>
        single <- (if negb (truthy shades)
                   then callHasOwnProperty o "500"
                   else Ok false) ;;
        if single : bool then
          e <- transform this key (Some "500") false ;; Ok (One e)
        else if isArray shades then
          es <- mapM (fun value => transform this key (Some value) false)
                  (filter (fun value => shadesIncludes shades value) (keys o)) ;;
          Ok (Many es)
        else if isObject shades then
          es <- mapM (fun value => transform this key (Some value) false)
                  (filter (fun value => includes (shadesKeys shades) value)
                     (keys o)) ;;
          Ok (Many es)
        else
          es <- mapM (fun value => transform this key (Some value) false)
                  (keys o) ;;
          Ok (Many es)
    end.

(** [tailwind()], from the point where the colour table has been read
    into [this.tailwind]. *)
Definition tailwind (this : Plugin) : result (list ColorEntry) :=
  rs <- mapM (resolve this) (keys (tailwind_table this)) ;;
  Ok (compact (flat_map flatten rs)).

End Methods.

(** ** Implementations of the external interfaces, for running the
    pipeline on concrete inputs *)

Module Sample.

(** *** The hexadecimal notations of d3-color *)

Definition hexDigit (c : ascii) : option Z :=
  let n := Z.of_nat (code c) in
  if ((48 <=? n) && (n <=? 57))%Z then Some (n - 48)%Z
  else if ((97 <=? n) && (n <=? 102))%Z then Some (n - 87)%Z
  else None.

(** [parseInt(digits, 16)], when every character is a digit in
    [[0-9a-f]]. *)
Fixpoint parseHex (acc : Z) (digits : string) : option Z :=
  match digits with
  | EmptyString => Some acc
  | String c rest =>
      match hexDigit c with
      | Some d => parseHex (16 * acc + d)%Z rest
      | None => None
      end
  end.

Definition number (z : Z) : field := Some (PrimFloat.of_uint63 (Uint63.of_Z z)).

(** [color(format)] restricted to [#rgb] and [#rrggbb]: the input is
    trimmed and put in lower case, the digits are read as one integer
    [m], and the channels are cut out of [m] with shifts and masks. *)
Definition color (format : string) : option D3.Color :=
  match toLowerCase (trim format) with
  | String "#" digits =>
      match parseHex 0 digits with
      | Some m =>
          let l := String.length digits in
          if Nat.eqb l 6 then
            Some (D3.mkColor
                    (number (Z.land (Z.shiftr m 16) 255))
                    (number (Z.land (Z.shiftr m 8) 255))
                    (number (Z.land m 255)))
          else if Nat.eqb l 3 then
            Some (D3.mkColor
                    (number (Z.lor (Z.land (Z.shiftr m 8) 15)
                                   (Z.land (Z.shiftr m 4) 240)))
                    (number (Z.lor (Z.land (Z.shiftr m 4) 15)
                                   (Z.land m 240)))
                    (number (Z.lor (Z.shiftl (Z.land m 15) 4)
                                   (Z.land m 15))))
          else None
      | None => None
      end
  | _ => None
  end.

Open Scope float_scope.

Definition isNaN (x : float) : bool := negb (x =? x).

(** [Math.min] and [Math.max] on two numbers. *)
Definition fmin (x y : float) : float :=
  if isNaN x || isNaN y then nan else if y <? x then y else x.

Definition fmax (x y : float) : float :=
  if isNaN x || isNaN y then nan else if x <? y then y else x.

(** [hsvConvert] of d3-hsv on the channels of an RGB colour. *)
Definition hsvConvert (red green blue : float) : D3.Hsv :=
  let r := red / 255 in
  let g := green / 255 in
  let b := blue / 255 in
  let min := fmin (fmin r g) b in
  let max := fmax (fmax r g) b in
  let d := max - min in
  let s := d / max in
  let v := max in
  if negb (isNaN d) && negb (d =? 0) then
    let h :=
      if r =? max then (g - b) / d + (if g <? b then 6 else 0)
      else if g =? max then (b - r) / d + 2
      else (r - g) / d + 4 in
    D3.mkHsv (h * 60) s v
  else
    D3.mkHsv nan s v.

Definition channel (x : field) : float :=
  match x with
  | Some n => n
  | None => nan
  end.

(** [hsv(format)]: a string that is not a colour converts as an RGB
    colour whose channels are [NaN]. *)
Definition hsv (format : string) : D3.Hsv :=
  match color format with
  | Some c => hsvConvert (channel (D3.r c)) (channel (D3.g c)) (channel (D3.b c))
  | None => hsvConvert nan nan nan
  end.

Close Scope float_scope.

Definition hexParser : D3.Parser :=
  {| D3.d3Color := color; D3.d3Hsv := hsv |}.

(** *** The [hsl()] notation of d3-color

    [reHslPercent] restricted to components written as unsigned integers
    below [2 ^ 53], which convert to numbers without rounding. *)

Definition decDigit (c : ascii) : option Z :=
  let n := Z.of_nat (code c) in
  if ((48 <=? n) && (n <=? 57))%Z then Some (n - 48)%Z else None.

Fixpoint digits (acc : Z) (s : string) : Z * string :=
  match s with
  | EmptyString => (acc, s)
  | String c rest =>
      match decDigit c with
      | Some d => digits (10 * acc + d)%Z rest
      | None => (acc, s)
      end
  end.

(** [(\d+)]: the integer read and what follows it. *)
Definition unsigned (s : string) : option (Z * string) :=
  match s with
  | EmptyString => None
  | String c _ =>
      match decDigit c with
      | Some _ =>
          let '(z, rest) := digits 0 s in
          if (z <? 2 ^ 53)%Z then Some (z, rest) else None
      | None => None
      end
  end.

Definition expect (c : ascii) (s : string) : option string :=
  match s with
  | EmptyString => None
  | String c' rest => if Ascii.eqb c c' then Some rest else None
  end.

Definition andThen {A B} (m : option A) (k : A -> option B) : option B :=
  match m with
  | Some a => k a
  | None => None
  end.

(** [^hsl\(\s*(\d+)\s*,\s*(\d+)%\s*,\s*(\d+)%\s*\)$]: the hue in degrees,
    the saturation and the lightness in percent. *)
Definition hslPercent (s : string) : option (Z * Z * Z) :=
  match s with
  | String "h" (String "s" (String "l" (String "(" rest))) =>
      andThen (unsigned (trimStart rest)) (fun '(h, rest) =>
      andThen (expect "," (trimStart rest)) (fun rest =>
      andThen (unsigned (trimStart rest)) (fun '(s, rest) =>
      andThen (expect "%" rest) (fun rest =>
      andThen (expect "," (trimStart rest)) (fun rest =>
      andThen (unsigned (trimStart rest)) (fun '(l, rest) =>
      andThen (expect "%" rest) (fun rest =>
      andThen (expect ")" (trimStart rest)) (fun rest =>
      match rest with
      | EmptyString => Some (h, s, l)
      | String _ _ => None
      end))))))))
  | _ => None
  end.

Definition toNumber (z : Z) : float := PrimFloat.of_uint63 (Uint63.of_Z z).

Open Scope float_scope.

(** [hsl2rgb(h, m1, m2)] *)
Definition hsl2rgb (h m1 m2 : float) : float :=
  (if h <? 60 then m1 + (m2 - m1) * h / 60
   else if h <? 180 then m2
   else if h <? 240 then m1 + (m2 - m1) * (240 - h) / 60
   else m1) * 255.

(** [hsla(h, s / 100, l / 100, 1).rgb()], the channels of the [Hsl]
    object: [hsla] makes the hue [NaN] at the ends of the lightness scale
    and at zero saturation, and [h % 360] is taken on the integer. *)
Definition hslToRgb (hue saturation lightness : Z) : float * float * float :=
  let percent := toNumber saturation / 100 in
  let l := toNumber lightness / 100 in
  let edge := (l <=? 0) || (1 <=? l) in
  let h := if edge || (percent <=? 0) then nan else toNumber (hue mod 360) in
  let s := if edge then nan else percent in
  let s := if isNaN h || isNaN s then 0 else s in
  let m2 := l + (if l <? 0.5 then l else 1 - l) * s in
  let m1 := 2 * l - m2 in
  (hsl2rgb (if 240 <=? h then h - 240 else h + 120) m1 m2,
   hsl2rgb h m1 m2,
   hsl2rgb (if h <? 120 then h + 240 else h - 120) m1 m2).

Close Scope float_scope.

(** [color(format)] with the hexadecimal and the [hsl()] notations. For
    [hsl()] it returns an [Hsl] object, whose fields are [h], [s], [l]
    and [opacity]: it has no [r], [g] or [b]. *)
Definition cssColor (format : string) : option D3.Color :=
  match color format with
  | Some c => Some c
  | None =>
      match hslPercent (toLowerCase (trim format)) with
      | Some _ => Some (D3.mkColor None None None)
      | None => None
      end
  end.

(** [hsv(format)]: an [Hsl] object is converted with its method [rgb()]
    first. *)
Definition cssHsv (format : string) : D3.Hsv :=
  match color format with
  | Some c => hsvConvert (channel (D3.r c)) (channel (D3.g c)) (channel (D3.b c))
  | None =>
      match hslPercent (toLowerCase (trim format)) with
      | Some (h, s, l) =>
          let '(r, g, b) := hslToRgb h s l in hsvConvert r g b
      | None => hsvConvert nan nan nan
      end
  end.

Definition cssParser : D3.Parser :=
  {| D3.d3Color := cssColor; D3.d3Hsv := cssHsv |}.

(** *** The case converters of lodash 4

    [_.camelCase] and [_.startCase] on strings of code units below 256:
    [deburr], the removal of apostrophes, [words] with its regular
    expressions, and the two reducers of [createCompounder]. *)

(** Regular expressions, as far as the patterns of [words] go. *)
Inductive RegExp : Type :=
| Class (p : ascii -> bool)
| Lit (s : string)
| Seq (a b : RegExp)
| Alt (a b : RegExp)
| Opt (a : RegExp)
| Star (a : RegExp)
| Ahead (a : RegExp)
| NotAhead (a : RegExp)
| AtEnd
| Boundary.

Definition Plus (a : RegExp) : RegExp := Seq a (Star a).

Definition between (lo hi : nat) (c : ascii) : bool :=
  ((lo <=? code c) && (code c <=? hi))%nat.

(** [\w] *)
Definition isWordChar (c : option ascii) : bool :=
  match c with
  | Some c =>
      between 97 122 c || between 65 90 c || between 48 57 c
      || Ascii.eqb c "_"
  | None => false
  end.

Definition next (s : string) : option ascii :=
  match s with
  | EmptyString => None
  | String c _ => Some c
  end.

(** The literal [lit] at the start of [s]: the last character read and
    what follows. *)
Fixpoint literal (lit : string) (prev : option ascii) (s : string)
  : option (option ascii * string) :=
  match lit, s with
  | EmptyString, _ => Some (prev, s)
  | String a lit', String c s' =>
      if Ascii.eqb a c then literal lit' (Some c) s' else None
  | String _ _, EmptyString => None
  end.

(** A backtracking matcher: [exec re prev s k] matches [re] at the start
    of [s], the character before it being [prev], and hands what is left
    to [k]; when [k] fails the next alternative is tried, in the order of
    the engine (left alternative first, quantifiers greedy). An iteration
    of [*] that reads nothing is refused. *)
Fixpoint exec (re : RegExp) (prev : option ascii) (s : string)
    (k : option ascii -> string -> option string) {struct re}
  : option string :=
  match re with
  | Class p =>
      match s with
      | String c rest => if p c then k (Some c) rest else None
      | EmptyString => None
      end
  | Lit lit =>
      match literal lit prev s with
      | Some (prev', rest) => k prev' rest
      | None => None
      end
  | Seq a b => exec a prev s (fun prev' s' => exec b prev' s' k)
  | Alt a b =>
      match exec a prev s k with
      | Some r => Some r
      | None => exec b prev s k
      end
  | Opt a =>
      match exec a prev s k with
      | Some r => Some r
      | None => k prev s
      end
  | Star a =>
      (fix loop (fuel : nat) (prev : option ascii) (s : string) {struct fuel}
         : option string :=
         match fuel with
         | O => k prev s
         | S fuel' =>
             match exec a prev s
                     (fun prev' s' =>
                        if (String.length s' <? String.length s)%nat
                        then loop fuel' prev' s'
                        else None) with
             | Some r => Some r
             | None => k prev s
             end
         end) (String.length s) prev s
  | Ahead a =>
      match exec a prev s (fun _ r => Some r) with
      | Some _ => k prev s
      | None => None
      end
  | NotAhead a =>
      match exec a prev s (fun _ r => Some r) with
      | Some _ => None
      | None => k prev s
      end
  | AtEnd =>
      match s with
      | EmptyString => k prev s
      | String _ _ => None
      end
  | Boundary =>
      if xorb (isWordChar prev) (isWordChar (next s)) then k prev s else None
  end.

(** [re.test(s)] without the [g] flag: a match somewhere in [s]. *)
Fixpoint search (re : RegExp) (prev : option ascii) (s : string) : bool :=
  match exec re prev s (fun _ r => Some r) with
  | Some _ => true
  | None =>
      match s with
      | EmptyString => false
      | String c rest => search re (Some c) rest
      end
  end.

(** [s.match(re)] with the [g] flag: the matches from left to right, each
    search starting where the last match ended, one character further
    after an empty match. *)
Fixpoint matchAll (re : RegExp) (fuel : nat) (prev : option ascii)
    (s : string) : list string :=
  match fuel, s with
  | S fuel', String c rest =>
      match exec re prev s (fun _ r => Some r) with
      | Some r =>
          let n := (String.length s - String.length r)%nat in
          substring 0 n s
            :: (if (n =? 0)%nat
                then matchAll re fuel' (Some c) rest
                else matchAll re fuel' (String.get (n - 1) s) r)
      | None => matchAll re fuel' (Some c) rest
      end
  | _, _ => []
  end.

(** The character classes of lodash's [words], cut down to the code units
    below 256. *)
Definition rsLower (c : ascii) : bool :=
  between 97 122 c || between 223 246 c || between 248 255 c.

Definition rsUpper (c : ascii) : bool :=
  between 65 90 c || between 192 214 c || between 216 222 c.

Definition rsDigit (c : ascii) : bool := between 48 57 c.

(** [rsBreakRange]: the mathematical operators, the non-character range
    and the spaces. *)
Definition rsBreak (c : ascii) : bool :=
  (code c =? 172)%nat || (code c =? 177)%nat
  || (code c =? 215)%nat || (code c =? 247)%nat
  || between 0 47 c || between 58 64 c || between 91 96 c
  || between 123 191 c.

(** [rsMisc]: none of the other classes, and not the [+] that the class
    inherits from [rsDigits]. *)
Definition rsMisc (c : ascii) : bool :=
  negb (rsBreak c || rsDigit c || Ascii.eqb c "+" || rsLower c || rsUpper c).

Definition rsMiscLower : RegExp := Alt (Class rsLower) (Class rsMisc).
Definition rsMiscUpper : RegExp := Alt (Class rsUpper) (Class rsMisc).

Definition rsApos (c : ascii) : bool := Ascii.eqb c "'".

Definition oneOf (lits : list string) : RegExp :=
  fold_right (fun lit re => Alt (Lit lit) re) (Class (fun _ => false)) lits.

Definition rsOptContrLower : RegExp :=
  Opt (Seq (Class rsApos) (oneOf ["d"; "ll"; "m"; "re"; "s"; "t"; "ve"])).

Definition rsOptContrUpper : RegExp :=
  Opt (Seq (Class rsApos) (oneOf ["D"; "LL"; "M"; "RE"; "S"; "T"; "VE"])).

Definition oneToThree (c : ascii) : bool := between 49 51 c.

(** [\d*(?:1st|2nd|3rd|(?![123])\dth)(?=\b|[A-Z_])] *)
Definition rsOrdLower : RegExp :=
  Seq (Star (Class rsDigit))
    (Seq (Alt (Lit "1st")
            (Alt (Lit "2nd")
               (Alt (Lit "3rd")
                  (Seq (NotAhead (Class oneToThree))
                     (Seq (Class rsDigit) (Lit "th"))))))
       (Ahead (Alt Boundary
                 (Class (fun c => between 65 90 c || Ascii.eqb c "_"))))).

(** [\d*(?:1ST|2ND|3RD|(?![123])\dTH)(?=\b|[a-z_])] *)
Definition rsOrdUpper : RegExp :=
  Seq (Star (Class rsDigit))
    (Seq (Alt (Lit "1ST")
            (Alt (Lit "2ND")
               (Alt (Lit "3RD")
                  (Seq (NotAhead (Class oneToThree))
                     (Seq (Class rsDigit) (Lit "TH"))))))
       (Ahead (Alt Boundary
                 (Class (fun c => between 97 122 c || Ascii.eqb c "_"))))).

(** [reUnicodeWord], without its last alternative [rsEmoji], which needs
    code units from 256 on. *)
Definition reUnicodeWord : RegExp :=
  Alt (Seq (Opt (Class rsUpper))
         (Seq (Plus (Class rsLower))
            (Seq rsOptContrLower
               (Ahead (Alt (Class rsBreak) (Alt (Class rsUpper) AtEnd))))))
    (Alt (Seq (Plus rsMiscUpper)
            (Seq rsOptContrUpper
               (Ahead (Alt (Class rsBreak)
                         (Alt (Seq (Class rsUpper) rsMiscLower) AtEnd)))))
       (Alt (Seq (Opt (Class rsUpper))
               (Seq (Plus rsMiscLower) rsOptContrLower))
          (Alt (Seq (Plus (Class rsUpper)) rsOptContrUpper)
             (Alt rsOrdUpper
                (Alt rsOrdLower
                   (Plus (Class rsDigit))))))).

(** [reAsciiWord]: [[^\x00-\x2f\x3a-\x40\x5b-\x60\x7b-\x7f]+] *)
Definition reAsciiWord : RegExp :=
  Plus (Class (fun c =>
                 negb (between 0 47 c || between 58 64 c
                       || between 91 96 c || between 123 127 c))).

Definition asciiLetter (c : ascii) : bool :=
  between 97 122 c || between 65 90 c.

(** [reHasUnicodeWord]:
    [[a-z][A-Z]|[A-Z]{2}[a-z]|[0-9][a-zA-Z]|[a-zA-Z][0-9]|[^a-zA-Z0-9 ]] *)
Definition reHasUnicodeWord : RegExp :=
  Alt (Seq (Class (between 97 122)) (Class (between 65 90)))
    (Alt (Seq (Class (between 65 90))
            (Seq (Class (between 65 90)) (Class (between 97 122))))
       (Alt (Seq (Class rsDigit) (Class asciiLetter))
          (Alt (Seq (Class asciiLetter) (Class rsDigit))
             (Class (fun c =>
                       negb (asciiLetter c || rsDigit c
                             || Ascii.eqb c " ")))))).

(** [_.words(string)] with no pattern. *)
Definition words (s : string) : list string :=
  if search reHasUnicodeWord None s
  then matchAll reUnicodeWord (String.length s) None s
  else matchAll reAsciiWord (String.length s) None s.

(** [deburrLetter] on the Latin-1 Supplement letters. *)
Definition deburrLetter (c : ascii) : string :=
  let n := code c in
  if between 192 197 c then "A"
  else if between 224 229 c then "a"
  else if (n =? 199)%nat then "C"
  else if (n =? 231)%nat then "c"
  else if (n =? 208)%nat then "D"
  else if (n =? 240)%nat then "d"
  else if between 200 203 c then "E"
  else if between 232 235 c then "e"
  else if between 204 207 c then "I"
  else if between 236 239 c then "i"
  else if (n =? 209)%nat then "N"
  else if (n =? 241)%nat then "n"
  else if between 210 214 c || (n =? 216)%nat then "O"
  else if between 242 246 c || (n =? 248)%nat then "o"
  else if between 217 220 c then "U"
  else if between 249 252 c then "u"
  else if (n =? 221)%nat then "Y"
  else if (n =? 253)%nat || (n =? 255)%nat then "y"
  else if (n =? 198)%nat then "Ae"
  else if (n =? 230)%nat then "ae"
  else if (n =? 222)%nat then "Th"
  else if (n =? 254)%nat then "th"
  else if (n =? 223)%nat then "ss"
  else String c EmptyString.

(** [_.deburr(string)]; the combining marks it also removes start at
    code unit 768. *)
Fixpoint deburr (s : string) : string :=
  match s with
  | EmptyString => EmptyString
  | String c rest => deburrLetter c ++ deburr rest
  end.

(** [string.replace(reApos, '')] *)
Fixpoint removeApos (s : string) : string :=
  match s with
  | EmptyString => EmptyString
  | String c rest =>
      if rsApos c then removeApos rest else String c (removeApos rest)
  end.

(** The words [createCompounder] reduces over. *)
Definition compoundWords (s : string) : list string :=
  words (removeApos (deburr s)).

(** [chr.toUpperCase()] on the first character of a word, which after
    [deburr] is an ASCII letter or a digit. *)
Definition upperChar (c : ascii) : ascii :=
  if between 97 122 c then ascii_of_nat (code c - 32) else c.

(** [_.upperFirst] *)
Definition upperFirst (s : string) : string :=
  match s with
  | EmptyString => EmptyString
  | String c rest => String (upperChar c) rest
  end.

(** [_.capitalize] *)
Definition capitalize (s : string) : string := upperFirst (toLowerCase s).

(** [_.camelCase]: the first word in lower case, the others in lower case
    and capitalized. *)
Definition camel (s : string) : string :=
  match compoundWords s with
  | [] => EmptyString
  | w :: ws =>
      String.concat EmptyString
        (toLowerCase w :: map (fun w => capitalize (toLowerCase w)) ws)
  end.

(** [_.startCase]: the words as they are but for a capital first letter,
    separated by spaces. *)
Definition start (s : string) : string :=
  String.concat " " (map upperFirst (compoundWords s)).

Definition asciiCasing : Casing :=
  {| camelCase := camel; startCase := start |}.

(** *** Stores *)

(** The store in which the [i]-th object is the [i]-th entry of a
    list. *)
Definition heapOf (entries : list ColorEntry) : heap :=
  fun i => nth i entries (mkEntry EmptyString EmptyString Undefined).

(** The README's Sass map, through [transform(name, value, true)]. *)
Definition readme : list ColorEntry :=
  [ mkEntry "Red" "red" (Str "#f54242");
    mkEntry "Black" "black" (Str "#111");
    mkEntry "Not Actually Black" "not-actually-black" (Str "#42f596");
    mkEntry "Random Gray" "random-gray" (Str "#858c89");
    mkEntry "White" "white" (Str "#fff");
    mkEntry "Blue" "blue" (Str "#4287f5");
    mkEntry "Orange" "orange" (Str "#f5b342") ].

End Sample.


(** ** The order of section 4.4, step 4, read literally

    Chromatic, non-standard-notation and unparsable entries each sorted on
    their own, then the grayscale entries. [build] is compared with it
    below. *)

Definition specOrder {parser : D3.Parser} (hp : heap)
    (objects : list (option (list loc))) : result (list loc) :=
  bk <- buckets hp objects ;;
  let '(chromatic, nonStandard, unparsable, grayscale) := bk in
  let byName := sortBy (fun x => name (hp x)) in
  Ok (byName chromatic ++ byName nonStandard ++ byName unparsable
        ++ byName grayscale).

(** The key [build] sorts and deduplicates by. *)
Definition nameOf (hp : heap) (x : loc) : string := name (hp x).

(** Ascending by name. *)
Definition byNameLe (hp : heap) (x y : loc) : Prop :=
  String.leb (nameOf hp x) (nameOf hp y) = true.

(** The test of the grayscale partition on an entry whose colour
    parsed as [c]. *)
Definition grayTest {parser : D3.Parser} (hp : heap) (x : loc) : bool :=
  match D3.d3Color (toString (color (hp x))) with
  | Some c =>
      (strictEq (D3.r c) (D3.g c) && strictEq (D3.r c) (D3.b c))
      || maybeGrayscale (color (hp x))
  | None => false
  end.

(** [this] with the given blacklist, shade policy and colour table. *)
Definition plugin (bl : list string) (sh : Shades) (t : ShadeTable) : Plugin :=
  {| options := {| blacklist := bl; tailwind_options := {| shades := sh |} |};
     tailwind_table := t |}.

(** The colour table without the bases of a blacklist. *)
Definition withoutBlacklisted (this : Plugin) : Plugin :=
  {| options := options this;
     tailwind_table :=
       filter (fun kv => negb (includes (blacklist (options this)) (fst kv)))
         (tailwind_table this) |}.

(** The shade keys the callback of [tailwind] passes to [transform] for a
    base whose shades are [o], when it returns an array: all of them under
    [true], the listed ones under an array or a label object, and all of
    them under [false] when [o] has no key [500]. *)
Definition selects (sh : Shades) (o : list (string * string))
    (value : string) : bool :=
  match sh with
  | ShadesBool true => true
  | ShadesBool false => negb (hasOwnProperty o "500")
  | ShadesArray a => includes a value
  | ShadesObject labels => includes (keys labels) value
  end.

(** The blacklist of the default options. *)
Definition defaultBlacklist : list string := ["transparent"; "inherit"].

(** ** Inputs for concrete runs *)

Module Inputs.

(** One entry of each class: a chromatic colour, a call with an
    unresolved variable, an exact gray and a custom-property
    reference. *)
Definition mixed : list ColorEntry :=
  [ mkEntry "Zed" "zed" (Str "#f54242");
    mkEntry "Alpha" "alpha" (Str "rgb(var(--x))");
    mkEntry "Black" "black" (Str "#111");
    mkEntry "Mid" "mid" (Str "var(--y)") ].

(** Two sources that both define [Red]. *)
Definition reds : list ColorEntry :=
  [ mkEntry "Red" "red" (Str "#f00");
    mkEntry "Red" "red" (Str "#e00") ].

(** Pure red written as [hsl()], a blue and an exact gray. *)
Definition hslRed : list ColorEntry :=
  [ mkEntry "Red" "red" (Str "hsl(0, 100%, 50%)");
    mkEntry "Blue" "blue" (Str "#4287f5");
    mkEntry "Black" "black" (Str "#111") ].

(** A base without the shade [500]. *)
Definition noDefaultShade : ShadeTable :=
  [ ("blue", Shaded [("400", "#abc"); ("900", "#001030")]) ].

(** The table of the shade-expansion example. *)
Definition blueShades : ShadeTable :=
  [ ("blue", Shaded [("500", "#4287f5"); ("900", "#001030")]) ].

(** The table of the default-shade example. *)
Definition withDefault : ShadeTable :=
  [ ("blue", Shaded [("50", "#eef"); ("default", "#246")]) ].

(** A table with a blacklisted base of each shape. *)
Definition withBlacklisted : ShadeTable :=
  [ ("transparent", Plain "transparent");
    ("inherit", Shaded [("500", "#123456")]);
    ("red", Plain "#f54242") ].

End Inputs.

(** The entries a returned value of the callback of [tailwind] leaves in
    the result after flattening and the final filter. *)
Definition emits (r : Emitted) (e : ColorEntry) : Prop :=
  match r with
  | Nothing => False
  | One e' => e' = e
  | Many es => In e es
  end.

(** [isNaN(x)], as [x !== x]. *)
Definition isNaN (x : float) : bool := negb (PrimFloat.eqb x x).

(** ** The rest of the class: options, files and the Sass source *)

Module Glue.

(** [String.prototype.includes(sub)]: [sub] occurs somewhere in [s]. *)
Fixpoint stringIncludes (s sub : string) : bool :=
  String.prefix sub s
  || match s with
     | EmptyString => false
     | String _ rest => stringIncludes rest sub
     end.

(** [_.endsWith(string, target)]: the last [target.length] code units of
    [string] are [target]; [false] when [target] is the longer one. *)
Definition endsWith (string target : string) : bool :=
  let position := String.length string - String.length target in
  (String.length target <=? String.length string)%nat
  && String.eqb (substring position (String.length target) string) target.

(** [_.startsWith(string, target)]. *)
Definition startsWith (string target : string) : bool :=
  String.eqb (substring 0 (String.length target) string) target.

(** An option that holds a string or an array of strings. *)
Inductive Strings : Type :=
| OneString (s : string)
| ManyStrings (l : list string).

(** [ToString]: an array prints its elements separated by commas. *)
Definition stringsToString (x : Strings) : string :=
  match x with
  | OneString s => s
  | ManyStrings l => String.concat "," l
  end.

(** An array is truthy, a string is unless it is empty. *)
Definition stringsTruthy (x : Strings) : bool :=
  match x with
  | OneString EmptyString => false
  | _ => true
  end.

(** [_.merge] on an array property: the elements of the source overwrite
    those of the destination index by index, the rest of the destination
    stays. *)
Fixpoint mergeArray (object source : list string) : list string :=
  match object, source with
  | _, [] => object
  | [], _ => source
  | _ :: object', x :: source' => x :: mergeArray object' source'
  end.

(** [options.blacklist] after the constructor has merged the user's
    options into the defaults; [None] is an option the user left out. *)
Definition mergedBlacklist (user : option (list string)) : list string :=
  match user with
  | None => defaultBlacklist
  | Some l => mergeArray defaultBlacklist l
  end.

(** [options.sass]: [path] and [files] may be missing or falsy. *)
Record SassOptions : Type := {
  path : option string;
  files : option Strings;
  variables : Strings
}.

(** One element of a Sass map, as sass-export reports it. *)
Record MapItem : Type := { itemName : string; compiledValue : string }.

(** One declaration of sass-export's [getArray()]; [mapValue] is there
    for a map only. *)
Record Declaration : Type := {
  declName : string;
  mapValue : option (list MapItem)
}.

(** The outside world of the plugin: the file system and the Sass
    exporter. *)
Class World : Type := {
  (** [fs.existsSync(path)] *)
  existsSync : string -> bool;
  (** [require('sass-export').exporter({ inputFiles }).getArray()]; a
      file that was not found is [undefined] in [inputFiles]. *)
  getArray : list (option string) -> result (list Declaration)
}.

(** The argument of [exists]: a path or an array of paths. *)
Definition Paths : Type := Strings.

(** What [exists] returns: the boolean of [fs.existsSync], or the array
    of the files that exist. *)
Inductive Existing : Type :=
| Found (b : bool)
| Kept (l : list string).

Definition existingTruthy (x : Existing) : bool :=
  match x with
  | Found b => b
  | Kept _ => true
  end.

(** [exists(files)]. The state is [options.sass]: a non-empty array
    argument overwrites [options.sass.files], which throws when
    [options.sass] is not an object. [fs.existsSync] of an empty array is
    [false]. *)
Definition exists_ {world : World} (sassOptions : option SassOptions)
    (arg : Paths) : result (Existing * option SassOptions) :=
  match arg with
  | ManyStrings (f :: rest) =>
      let kept := filter existsSync (f :: rest) in
      match sassOptions with
      | Some so =>
          Ok (Kept kept,
              Some {| path := path so;
                      files := Some (ManyStrings kept);
                      variables := variables so |})
      | None => Throw (TypeError "Cannot set properties of undefined")
      end
  | ManyStrings [] => Ok (Found false, sassOptions)
  | OneString s => Ok (Found (existsSync s), sassOptions)
  end.

(** [paths] in [sass()]: the directory the files are looked up in. *)
Definition sassPaths (so : SassOptions) : option string :=
  match path so with
  | None | Some EmptyString => None
  | Some p => Some (if endsWith "/" p then p else (p ++ "/")%string)
  end.

(** [[paths, file].join('')] for the one element [file] of
    [[options.sass.files]]; [null] joins as the empty string. *)
Definition sassCandidate (so : SassOptions) (file : Strings) : string :=
  match sassPaths so with
  | Some p => (p ++ stringsToString file)%string
  | None => stringsToString file
  end.

(** The test of [[options.sass.variables].some(...)] on the name of a
    declaration. When the option is an array that prints with a leading
    [$], the name is compared with the array itself, which no string
    equals. *)
Definition sassWanted (so : SassOptions) (declaration : string) : bool :=
  match variables so with
  | OneString v =>
      String.eqb declaration
        (if startsWith v "$" then v else ("$" ++ v)%string)
  | ManyStrings l =>
      if startsWith (String.concat "," l) "$" then false
      else String.eqb declaration ("$" ++ String.concat "," l)%string
  end.

Definition hasMap (d : Declaration) : bool :=
  match mapValue d with
  | Some _ => true
  | None => false
  end.

(** [sass()]; [None] is the [undefined] of its early returns. *)
Definition sass {world : World} {casing : Casing} (this : Plugin)
    (sassOptions : option SassOptions) : result (option (list ColorEntry)) :=
  match sassOptions with
  | None => Ok None
  | Some so =>
      match files so with
      | None => Ok None
      | Some file =>
          if negb (stringsTruthy file) then Ok None
          else
            found <- exists_ sassOptions
                       (OneString (sassCandidate so file)) ;;
            let inputFiles :=
              [ if existingTruthy (fst found)
                then Some (sassCandidate so file)
                else None ] in
            declarations <- getArray inputFiles ;;
            match declarations with
            | [] => Ok None
            | _ =>
                colors <-
                  mapM (fun d =>
                          mapM (fun item =>
                                  transform this (itemName item)
                                    (Some (compiledValue item)) true)
                            (match mapValue d with
                             | Some items => items
                             | None => []
                             end))
                    (filter (fun key => sassWanted so (declName key)
                                        && hasMap key)
                       declarations) ;;
                Ok (Some (List.concat colors))
            end
      end
  end.

(** [this.palette] in the constructor, from what [tailwind()] and
    [sass()] returned: [priority.includes('tailwind')] decides which goes
    first. *)
Definition palette {parser : D3.Parser} (hp : heap) (priority : string)
    (fromTailwind : list loc) (fromSass : option (list loc))
  : result (list loc) :=
  if stringIncludes priority "tailwind"
  then build hp [Some fromTailwind; fromSass]
  else build hp [fromSass; Some fromTailwind].

End Glue.

(** A world with the README's Sass file at the default place. *)
Module SampleWorld.

Definition variablesFile : string :=
  "resources/assets/styles/config/variables.scss".

Definition declarations : list Glue.Declaration :=
  [ {| Glue.declName := "$black"; Glue.mapValue := None |};
    {| Glue.declName := "$colors";
       Glue.mapValue :=
         Some [ {| Glue.itemName := "red"; Glue.compiledValue := "#f54242" |};
                {| Glue.itemName := "black"; Glue.compiledValue := "#111" |};
                {| Glue.itemName := "not-actually-black";
                   Glue.compiledValue := "#42f596" |};
                {| Glue.itemName := "random-gray";
                   Glue.compiledValue := "#858c89" |};
                {| Glue.itemName := "white"; Glue.compiledValue := "#fff" |};
                {| Glue.itemName := "blue"; Glue.compiledValue := "#4287f5" |};
                {| Glue.itemName := "orange";
                   Glue.compiledValue := "#f5b342" |} ] |} ].

Definition world : Glue.World :=
  {| Glue.existsSync := fun p => String.eqb p variablesFile;
     Glue.getArray :=
       fun inputFiles =>
         match inputFiles with
         | [Some _] => Ok declarations
         | _ => Ok []
         end |}.

(** The default [options.sass]. *)
Definition defaultSass : Glue.SassOptions :=
  {| Glue.path := Some "resources/assets/styles/config";
     Glue.files := Some (Glue.ManyStrings ["variables.scss"]);
     Glue.variables := Glue.ManyStrings ["colors"] |}.

End SampleWorld.

(** No code unit of [s] is a line terminator: [s] is matched by [.*]. *)
Fixpoint noLineTerminator (s : string) : bool :=
  match s with
  | EmptyString => true
  | String c rest => negb (isLineTerminator c) && noLineTerminator rest
  end.

(** * Properties *)

(** ** Strings *)

Lemma leb_trans (a b c : string) :
  String.leb a b = true -> String.leb b c = true -> String.leb a c = true.
Proof.
  unfold String.leb. revert b c.
  induction a as [|x a IH]; intros [|y b] [|z c]; simpl; try easy.
  unfold Ascii.compare.
  destruct (N.compare_spec (N_of_ascii x) (N_of_ascii y));
    destruct (N.compare_spec (N_of_ascii y) (N_of_ascii z));
    destruct (N.compare_spec (N_of_ascii x) (N_of_ascii z));
    try easy; try lia.
  apply IH.
Qed.

Lemma leb_false_flip (a b : string) :
  String.leb a b = false -> String.leb b a = true.
Proof.
  intros H. destruct (String.leb_total a b) as [E|E]; congruence.
Qed.

Lemma append_empty (s : string) : (s ++ EmptyString)%string = s.
Proof. induction s; simpl; congruence. Qed.

Lemma includes_In (l : list string) (x : string) :
  includes l x = true <-> In x l.
Proof.
  unfold includes. rewrite existsb_exists. split.
  - intros [y [Hy E]]. apply String.eqb_eq in E. now subst.
  - intros H. exists x. split; [assumption | apply String.eqb_refl].
Qed.

(** ** [_.sortBy] *)

Section SortByFacts.
Context {A : Type}.
Variable key : A -> string.

Let le (x y : A) : Prop := String.leb (key x) (key y) = true.

Lemma insert_perm (x : A) (l : list A) :
  Permutation (insert key x l) (x :: l).
Proof.
  induction l as [|y l IH]; simpl.
  - reflexivity.
  - destruct (String.leb (key x) (key y)).
    + reflexivity.
    + rewrite IH. apply perm_swap.
Qed.

Lemma sortBy_perm (l : list A) : Permutation (sortBy key l) l.
Proof.
  induction l as [|x l IH]; simpl.
  - reflexivity.
  - rewrite insert_perm. now apply perm_skip.
Qed.

Lemma insert_sorted (x : A) (l : list A) :
  StronglySorted le l -> StronglySorted le (insert key x l).
Proof.
  induction 1 as [|y l Hs IH Hall]; simpl.
  - constructor; constructor.
  - destruct (String.leb (key x) (key y)) eqn:E.
    + constructor.
      * now constructor.
      * constructor; [exact E |].
        eapply Forall_impl; [| exact Hall].
        intros z Hz. unfold le in *. eapply leb_trans; eassumption.
    + constructor; [exact IH |].
      assert (Hx : Forall (le y) (x :: l)).
      { constructor; [| exact Hall]. now apply leb_false_flip. }
      rewrite Forall_forall in *. intros z Hz. apply Hx.
      eapply Permutation_in; [apply insert_perm | exact Hz].
Qed.

Lemma sortBy_sorted (l : list A) : StronglySorted le (sortBy key l).
Proof.
  induction l as [|x l IH]; simpl.
  - constructor.
  - now apply insert_sorted.
Qed.

Lemma sortBy_In (x : A) (l : list A) : In x (sortBy key l) <-> In x l.
Proof.
  split; apply Permutation_in; [| symmetry]; apply sortBy_perm.
Qed.
End SortByFacts.

(** ** [_.uniqBy] and [_.union] *)

Section UniqFacts.
Context {A K : Type}.
Variable eqK : K -> K -> bool.
Variable key : A -> K.
Hypothesis eqK_eq : forall a b, eqK a b = true <-> a = b.

Lemma seen_In (k : K) (seen : list K) :
  existsb (eqK k) seen = true <-> In k seen.
Proof.
  rewrite existsb_exists. split.
  - intros [y [Hy E]]. apply eqK_eq in E. now subst.
  - intros H. exists k. split; [assumption | now apply eqK_eq].
Qed.

Lemma seen_not_In (k : K) (seen : list K) :
  existsb (eqK k) seen = false <-> ~ In k seen.
Proof.
  rewrite <- seen_In. destruct (existsb (eqK k) seen); split; congruence.
Qed.

Lemma baseUniq_In (seen : list K) (l : list A) (x : A) :
  In x (baseUniq eqK key seen l) -> In x l /\ ~ In (key x) seen.
Proof.
  revert seen. induction l as [|y l IH]; intros seen; simpl; [easy |].
  destruct (existsb (eqK (key y)) seen) eqn:E.
  - intros H. apply IH in H. tauto.
  - intros [-> | H].
    + split; [now left | now apply seen_not_In].
    + apply IH in H. simpl in H. tauto.
Qed.

Lemma baseUniq_NoDup (seen : list K) (l : list A) :
  NoDup (map key (baseUniq eqK key seen l)).
Proof.
  revert seen. induction l as [|y l IH]; intros seen; simpl.
  - constructor.
  - destruct (existsb (eqK (key y)) seen); [apply IH |].
    simpl. constructor; [| apply IH].
    intros H. apply in_map_iff in H as [z [Hz Hin]].
    apply baseUniq_In in Hin as [_ Hn]. apply Hn. left. now symmetry.
Qed.

(** Every key of the input is still there: an element is dropped only
    for an earlier one with the same key. *)
Lemma baseUniq_complete (seen : list K) (l : list A) (y : A) :
  In y l ->
  In (key y) seen \/ exists x, In x (baseUniq eqK key seen l) /\ key x = key y.
Proof.
  revert seen. induction l as [|z l IH]; intros seen; simpl; [easy |].
  intros [-> | H].
  - destruct (existsb (eqK (key y)) seen) eqn:E.
    + left. now apply seen_In.
    + right. exists y. split; [now left | reflexivity].
  - destruct (existsb (eqK (key z)) seen) eqn:E.
    + now apply IH.
    + destruct (IH (key z :: seen) H) as [[Hk | Hk] | [x [Hx Hk]]].
      * right. exists z. split; [now left | exact Hk].
      * now left.
      * right. exists x. split; [now right | exact Hk].
Qed.

(** An element that is kept is the first one of the input with its
    key. *)
Lemma baseUniq_first (seen : list K) (l : list A) (x : A) :
  In x (baseUniq eqK key seen l) ->
  exists l1 l2, l = l1 ++ x :: l2 /\ forall y, In y l1 -> key y <> key x.
Proof.
  revert seen. induction l as [|z l IH]; intros seen; simpl; [easy |].
  destruct (existsb (eqK (key z)) seen) eqn:E.
  - intros H. pose proof (baseUniq_In _ _ _ H) as [_ Hn].
    destruct (IH _ H) as [l1 [l2 [-> Hl1]]].
    exists (z :: l1), l2. split; [reflexivity |].
    intros y [<- | Hy]; [| now apply Hl1].
    intros Hk. apply Hn. rewrite <- Hk. now apply seen_In.
  - intros [-> | H].
    + exists [], l. split; [reflexivity | easy].
    + pose proof (baseUniq_In _ _ _ H) as [_ Hn].
      destruct (IH _ H) as [l1 [l2 [-> Hl1]]].
      exists (z :: l1), l2. split; [reflexivity |].
      intros y [<- | Hy]; [| now apply Hl1].
      intros Hk. apply Hn. left. exact Hk.
Qed.

(** Removing repeated references first does not change the result:
    a repeated reference repeats its key. *)
Lemma baseUniq_after_refs (eqA : A -> A -> bool)
    (eqA_eq : forall a b, eqA a b = true <-> a = b)
    (seenA : list A) (seen : list K) (l : list A) :
  (forall a, In a seenA -> In (key a) seen) ->
  baseUniq eqK key seen (baseUniq eqA (fun a => a) seenA l)
  = baseUniq eqK key seen l.
Proof.
  revert seenA seen. induction l as [|z l IH]; intros seenA seen Hinv; simpl.
  - reflexivity.
  - destruct (existsb (eqA z) seenA) eqn:EA.
    + assert (Hz : In (key z) seen).
      { apply Hinv. apply existsb_exists in EA as [w [Hw E]].
        apply eqA_eq in E. now subst. }
      apply seen_In in Hz. rewrite Hz. now apply IH.
    + simpl. destruct (existsb (eqK (key z)) seen) eqn:EK.
      * apply IH. intros a [<- | Ha]; [now apply seen_In | now apply Hinv].
      * f_equal. apply IH.
        intros a [<- | Ha]; [now left | right; now apply Hinv].
Qed.
End UniqFacts.

Lemma union_then_uniqBy (hp : heap) (objects : list (option (list loc))) :
  uniqBy String.eqb (nameOf hp) (union objects)
  = uniqBy String.eqb (nameOf hp) (baseFlatten objects).
Proof.
  unfold union, uniqBy.
  apply (baseUniq_after_refs String.eqb (nameOf hp) String.eqb_eq
           Nat.eqb Nat.eqb_eq).
  intros a [].
Qed.

(** ** Partitions *)

Lemma partitionM_pure {A} (f : A -> result bool) (g : A -> bool) (l : list A) :
  (forall x, In x l -> f x = Ok (g x)) ->
  partitionM f l = Ok (filter g l, filter (fun x => negb (g x)) l).
Proof.
  induction l as [|x l IH]; intros H; simpl.
  - reflexivity.
  - rewrite (H x (or_introl eq_refl)). simpl.
    rewrite IH by (intros y Hy; apply H; now right). simpl.
    now destruct (g x).
Qed.

Lemma filter_split_perm {A} (f : A -> bool) (l : list A) :
  Permutation (filter f l ++ filter (fun x => negb (f x)) l) l.
Proof.
  induction l as [|x l IH]; simpl; [reflexivity |].
  destruct (f x); simpl.
  - now apply perm_skip.
  - rewrite <- Permutation_middle. now apply perm_skip.
Qed.

(** ** [build] *)

Section BuildFacts.
Context {parser : D3.Parser}.
Variable hp : heap.

(** On an entry the parser accepted, the grayscale test returns. *)
Lemma grayish_parsed (x : loc) :
  parses hp x = true -> grayish hp x = Ok (grayTest hp x).
Proof.
  unfold parses, grayish, grayTest, isGrayscale.
  destruct (D3.d3Color (toString (color (hp x)))) as [c|]; [| discriminate].
  intros _. simpl.
  now destruct (strictEq (D3.r c) (D3.g c) && strictEq (D3.r c) (D3.b c)).
Qed.

(** A parsed object without the fields [r], [g] and [b] passes the exact
    check: the three reads are [undefined]. *)
Lemma grayTest_missing_channels (x : loc) :
  D3.d3Color (toString (color (hp x))) = Some (D3.mkColor None None None) ->
  grayTest hp x = true.
Proof. intros H. unfold grayTest. now rewrite H. Qed.

(** The buckets in closed form: [build] tests for gray only what
    parsed, so no destructuring of [null] happens. *)
Lemma buckets_eq (objects : list (option (list loc))) :
  let collection := uniqBy String.eqb (nameOf hp) (baseFlatten objects) in
  let colors := filter (parses hp) collection in
  let maybeColors := filter (fun x => negb (parses hp x)) collection in
  buckets hp objects =
    Ok (filter (fun x => negb (grayTest hp x)) colors,
        filter (looksLikeCall hp) maybeColors,
        filter (fun x => negb (looksLikeCall hp x)) maybeColors,
        filter (grayTest hp) colors).
Proof.
  intros collection colors maybeColors. unfold buckets.
  change (fun x : loc => name (hp x)) with (nameOf hp).
  rewrite union_then_uniqBy. fold collection.
  rewrite partition_as_filter. fold colors. fold maybeColors.
  rewrite partition_as_filter.
  rewrite (partitionM_pure (grayish hp) (grayTest hp)).
  - reflexivity.
  - intros x Hx. apply grayish_parsed.
    unfold colors in Hx. now apply filter_In in Hx.
Qed.

Lemma build_eq (objects : list (option (list loc))) :
  let collection := uniqBy String.eqb (nameOf hp) (baseFlatten objects) in
  let colors := filter (parses hp) collection in
  let maybeColors := filter (fun x => negb (parses hp x)) collection in
  build hp objects =
    Ok (sortBy (nameOf hp)
          (filter (fun x => negb (grayTest hp x)) colors
             ++ filter (looksLikeCall hp) maybeColors
             ++ filter (fun x => negb (looksLikeCall hp x)) maybeColors)
        ++ sortBy (nameOf hp) (filter (grayTest hp) colors)).
Proof.
  intros collection colors maybeColors. unfold build.
  rewrite buckets_eq. simpl. rewrite app_nil_r. reflexivity.
Qed.

(** The output is a rearrangement of the deduplicated input. *)
Lemma build_perm (objects : list (option (list loc))) :
  exists out,
    build hp objects = Ok out /\
    Permutation out (uniqBy String.eqb (nameOf hp) (baseFlatten objects)).
Proof.
  eexists. split; [apply build_eq |].
  set (collection := uniqBy String.eqb (nameOf hp) (baseFlatten objects)).
  rewrite !sortBy_perm.
  set (colors := filter (parses hp) collection).
  set (maybeColors := filter (fun x => negb (parses hp x)) collection).
  transitivity (colors ++ maybeColors); [| apply filter_split_perm].
  pose proof (filter_split_perm (grayTest hp) colors) as Hc.
  pose proof (filter_split_perm (looksLikeCall hp) maybeColors) as Hm.
  etransitivity; [| apply Permutation_app; [exact Hc | exact Hm]].
  etransitivity; [apply Permutation_app_comm |].
  rewrite <- !app_assoc. reflexivity.
Qed.
End BuildFacts.

Lemma build_pair_perm {parser : D3.Parser} (hp : heap)
    (primary secondary : list loc) :
  exists out,
    build hp [Some primary; Some secondary] = Ok out /\
    Permutation out (uniqBy String.eqb (nameOf hp) (primary ++ secondary)).
Proof.
  destruct (build_perm hp [Some primary; Some secondary]) as [out [Hb Hp]].
  exists out. split; [exact Hb |].
  simpl in Hp. now rewrite app_nil_r in Hp.
Qed.

(** ** The README's example runs as printed *)

Example build_readme :
  option_map (map (nameOf (Sample.heapOf Sample.readme)))
    (match build (parser := Sample.hexParser) (Sample.heapOf Sample.readme)
             [Some []; Some (seq 0 7)] with
     | Ok out => Some out
     | Throw _ => None
     end)
  = Some ["Blue"; "Not Actually Black"; "Orange"; "Red";
          "Black"; "Random Gray"; "White"].
Proof. vm_compute. reflexivity. Qed.

Example notation_samples :
  Notation.test "rgb(var(--x))" = true /\
  Notation.test "HSLA(var(--h), 50%, 50%, 1)" = true /\
  Notation.test "rgb()" = false /\
  Notation.test "var(--x)" = false /\
  Notation.test "rgb(1, 2, 3) " = false.
Proof. repeat split; reflexivity. Qed.

(** ** Claims about [build] *)

(** C7. [build] never throws and never drops an entry: on every pair of
    input arrays it returns an array, and that array is a rearrangement
    of the concatenation of the two inputs deduplicated by name, so every
    entry that survives deduplication is in the output exactly once. *)
Theorem C7_build_total_and_lossless :
  forall (parser : D3.Parser) (hp : heap) (primary secondary : list loc),
  exists out,
    build hp [Some primary; Some secondary] = Ok out /\
    Permutation out (uniqBy String.eqb (nameOf hp) (primary ++ secondary)) /\
    NoDup out.
Proof.
  intros parser hp primary secondary.
  destruct (build_pair_perm hp primary secondary) as [out [Hb Hp]].
  exists out. split; [exact Hb |]. split; [exact Hp |].
  apply (NoDup_map_inv (nameOf hp)).
  eapply Permutation_NoDup.
  - apply Permutation_map. symmetry. exact Hp.
  - apply baseUniq_NoDup. exact String.eqb_eq.
Qed.

(** C1, as the code has it. The output of [build] is two groups: the
    chromatic, non-standard-notation and unparsable entries taken together
    and sorted ascending by name as one group, followed by the grayscale
    entries sorted ascending by name. Names do not repeat in the
    output. *)
Theorem C1_two_sorted_groups :
  forall (parser : D3.Parser) (hp : heap) (primary secondary : list loc),
  exists chromatic nonStandard unparsable grayscale front back,
    buckets hp [Some primary; Some secondary]
      = Ok (chromatic, nonStandard, unparsable, grayscale) /\
    build hp [Some primary; Some secondary] = Ok (front ++ back) /\
    Permutation front (chromatic ++ nonStandard ++ unparsable) /\
    StronglySorted (byNameLe hp) front /\
    Permutation back grayscale /\
    StronglySorted (byNameLe hp) back /\
    NoDup (map (nameOf hp) (front ++ back)).
Proof.
  intros parser hp primary secondary.
  pose proof (buckets_eq hp [Some primary; Some secondary]) as Hk.
  pose proof (build_eq hp [Some primary; Some secondary]) as Hb.
  destruct (build_perm hp [Some primary; Some secondary]) as [out [Ho Hp]].
  cbv zeta in Hk, Hb.
  do 6 eexists.
  split; [exact Hk |]. split; [exact Hb |].
  split; [apply sortBy_perm |]. split; [apply sortBy_sorted |].
  split; [apply sortBy_perm |]. split; [apply sortBy_sorted |].
  rewrite Hb in Ho. injection Ho as <-.
  eapply Permutation_NoDup.
  - apply Permutation_map. symmetry. exact Hp.
  - apply baseUniq_NoDup. exact String.eqb_eq.
Qed.

(** C1, as stated, fails: with a chromatic [Zed] and a non-standard
    [Alpha], [build] puts [Alpha] and the unparsable [Mid] before [Zed],
    where the order of the claim starts with the chromatic entry. *)
Lemma C1_chromatic_not_first :
  buckets (parser := Sample.hexParser) (Sample.heapOf Inputs.mixed)
    [Some [0; 2]; Some [1; 3]] = Ok ([0], [1], [3], [2]) /\
  build (parser := Sample.hexParser) (Sample.heapOf Inputs.mixed)
    [Some [0; 2]; Some [1; 3]] = Ok [1; 3; 0; 2] /\
  build (parser := Sample.hexParser) (Sample.heapOf Inputs.mixed)
    [Some [0; 2]; Some [1; 3]]
  <> specOrder (parser := Sample.hexParser) (Sample.heapOf Inputs.mixed)
       [Some [0; 2]; Some [1; 3]].
Proof.
  split; [vm_compute; reflexivity |].
  split; [vm_compute; reflexivity |].
  vm_compute. discriminate.
Qed.

(** C4. [build] takes the primary array before the secondary one and
    deduplicates by name keeping the first occurrence: every entry of the
    output is the first entry with its name in primary-then-secondary
    order, every name of the inputs is in the output, and no name is there
    twice. With [Red] as "#f00" in one array and as "#e00" in the other,
    the array passed first decides. *)
Theorem C4_first_occurrence_wins :
  forall (parser : D3.Parser),
  (forall (hp : heap) (primary secondary : list loc),
   exists out,
     build hp [Some primary; Some secondary] = Ok out /\
     NoDup (map (nameOf hp) out) /\
     (forall x, In x out ->
        exists l1 l2,
          primary ++ secondary = l1 ++ x :: l2 /\
          forall y, In y l1 -> nameOf hp y <> nameOf hp x) /\
     (forall y, In y (primary ++ secondary) ->
        exists x, In x out /\ nameOf hp x = nameOf hp y)) /\
  (exists out,
     build (Sample.heapOf Inputs.reds) [Some [0]; Some [1]] = Ok out /\
     map (fun x => color (Sample.heapOf Inputs.reds x)) out = [Str "#f00"]) /\
  (exists out,
     build (Sample.heapOf Inputs.reds) [Some [1]; Some [0]] = Ok out /\
     map (fun x => color (Sample.heapOf Inputs.reds x)) out = [Str "#e00"]).
Proof.
  intros parser. split; [| split].
  - intros hp primary secondary.
    destruct (build_pair_perm hp primary secondary) as [out [Hb Hp]].
    exists out. split; [exact Hb |]. split; [| split].
    + eapply Permutation_NoDup.
      * apply Permutation_map. symmetry. exact Hp.
      * apply baseUniq_NoDup. exact String.eqb_eq.
    + intros x Hx. apply (Permutation_in _ Hp) in Hx.
      eapply baseUniq_first; [exact String.eqb_eq | exact Hx].
    + intros y Hy.
      destruct (baseUniq_complete String.eqb (nameOf hp) String.eqb_eq
                  [] _ y Hy) as [[] | [x [Hx Hk]]].
      exists x. split; [| exact Hk].
      apply Permutation_in with (1 := Permutation_sym Hp). exact Hx.
  - destruct (build_pair_perm (Sample.heapOf Inputs.reds) [0] [1])
      as [out [Hb Hp]].
    exists out. split; [exact Hb |].
    apply Permutation_sym, Permutation_length_1_inv in Hp. now subst.
  - destruct (build_pair_perm (Sample.heapOf Inputs.reds) [1] [0])
      as [out [Hb Hp]].
    exists out. split; [exact Hb |].
    apply Permutation_sym, Permutation_length_1_inv in Hp. now subst.
Qed.

(** ** The curve at zero saturation *)

Lemma compare_le_lt (m a b : positive) :
  (a < b)%positive ->
  match Pos.compare_cont Eq m a with Gt => false | _ => true end = true ->
  match Pos.compare_cont Eq m b with Lt => true | _ => false end = true.
Proof.
  intros Hab H.
  assert (Hle : (m <= a)%positive).
  { unfold Pos.le, Pos.compare. intros E. rewrite E in H. discriminate H. }
  assert (Hlt : (m < b)%positive) by (eapply Pos.le_lt_trans; eassumption).
  unfold Pos.lt, Pos.compare in Hlt. rewrite Hlt. reflexivity.
Qed.

Lemma below_one_point_three (v : float) :
  (v <=? 1)%float = true -> (v <? 1.3)%float = true.
Proof.
  rewrite leb_spec, ltb_spec.
  assert (E1 : Prim2SF 1 = S754_finite false 4503599627370496 (-52))
    by reflexivity.
  assert (E2 : Prim2SF 1.3 = S754_finite false 5854679515581645 (-52))
    by reflexivity.
  rewrite E1, E2. clear E1 E2.
  destruct (Prim2SF v) as [[|] | [|] | | [|] m e];
    try (intros _; reflexivity); try (intros H; discriminate H).
  unfold SFleb, SFltb, SFcompare.
  destruct (Z.compare e (-52));
    [ | intros _; reflexivity | intros H; discriminate H ].
  apply compare_le_lt. reflexivity.
Qed.

Lemma belowCurve_zero_saturation (v : float) :
  (v <=? 1)%float = true -> belowCurve 0 v = true.
Proof.
  unfold belowCurve.
  change (1.3 / (1 + 8.5 * 0))%float with 1.3%float.
  apply below_one_point_three.
Qed.

(** An entry whose colour parsed is in the grayscale bucket exactly when
    one of the two tests of [build] passes: [r === g && r === b] on the
    three fields read from the parsed object, each of them [undefined]
    when the object has no such field, or [v < 1.3 / (1 + 8.5 * s)] on
    its HSV form. *)
Lemma grayscale_bucket_iff_tests :
  forall (parser : D3.Parser) (hp : heap) (primary secondary : list loc)
         (chromatic nonStandard unparsable grayscale : list loc),
    buckets hp [Some primary; Some secondary]
      = Ok (chromatic, nonStandard, unparsable, grayscale) ->
    forall x c,
      In x (chromatic ++ nonStandard ++ unparsable ++ grayscale) ->
      D3.d3Color (toString (color (hp x))) = Some c ->
      (In x grayscale <->
         strictEq (D3.r c) (D3.g c) && strictEq (D3.r c) (D3.b c) = true
         \/ (D3.v (D3.d3Hsv (toString (color (hp x))))
               <? 1.3 / (1 + 8.5 * D3.s (D3.d3Hsv (toString (color (hp x))))))
             %float = true).
Proof.
  intros parser hp primary secondary chromatic nonStandard unparsable
    grayscale Hk.
  rewrite buckets_eq in Hk. cbv zeta in Hk.
  injection Hk as <- <- <- <-.
  intros x c Hin Hc.
  assert (Hg : grayTest hp x = true <->
               strictEq (D3.r c) (D3.g c) && strictEq (D3.r c) (D3.b c) = true
               \/ belowCurve (D3.s (D3.d3Hsv (toString (color (hp x)))))
                    (D3.v (D3.d3Hsv (toString (color (hp x))))) = true).
  { unfold grayTest, maybeGrayscale. rewrite Hc. apply orb_true_iff. }
  assert (Hp : parses hp x = true) by (unfold parses; now rewrite Hc).
  unfold belowCurve in Hg.
  rewrite <- Hg, filter_In. split; [tauto |].
  intros Hgx. split; [| exact Hgx].
  rewrite !in_app_iff, !filter_In in Hin.
  rewrite filter_In.
  destruct Hin as [[[H _] _] | [[[H Hn] _] | [[[H Hn] _] | [[H _] _]]]];
    try (split; [exact H | exact Hp]);
    rewrite Hp in Hn; discriminate.
Qed.

(** On the README palette [Random Gray], "#858c89", is gray by the
    perceptual test alone. *)
Example random_gray_is_perceptual :
  isGrayscale (parser := Sample.hexParser) (Str "#858c89") = Ok false /\
  maybeGrayscale (parser := Sample.hexParser) (Str "#858c89") = true /\
  buckets (parser := Sample.hexParser) (Sample.heapOf Sample.readme)
    [Some []; Some (seq 0 7)] = Ok ([0; 2; 5; 6], [], [], [1; 3; 4]).
Proof. repeat split; vm_compute; reflexivity. Qed.

(** C5, the run that departs from the claim. Pure red written as
    [hsl(0, 100%, 50%)] parses, to an [Hsl] object: the fields [r], [g]
    and [b] that [isGrayscale] reads from it are all [undefined], so
    [r === g && r === b] holds and the entry goes to the grayscale bucket,
    after the exact gray [Black] in the output. Its red, green and blue
    components are 255, 0 and 0, and at saturation 1 and value 1 it is not
    below the curve: by the claim it is not grayscale. So is every colour
    whose parsed object has none of the three fields. The same red written
    in hexadecimal is classified as the claim says. *)
Theorem C5_hsl_red_is_classed_gray :
  D3.d3Color (Parser := Sample.cssParser) "hsl(0, 100%, 50%)"
    = Some (D3.mkColor None None None) /\
  isGrayscale (parser := Sample.cssParser) (Str "hsl(0, 100%, 50%)")
    = Ok true /\
  buckets (parser := Sample.cssParser) (Sample.heapOf Inputs.hslRed)
    [Some [0; 1; 2]; Some []] = Ok ([1], [], [], [0; 2]) /\
  build (parser := Sample.cssParser) (Sample.heapOf Inputs.hslRed)
    [Some [0; 1; 2]; Some []] = Ok [1; 2; 0] /\
  Sample.hslToRgb 0 100 50 = (255%float, 0%float, 0%float) /\
  (PrimFloat.eqb 255 0 = false) /\
  D3.d3Hsv (Parser := Sample.cssParser) "hsl(0, 100%, 50%)"
    = D3.mkHsv 0 1 1 /\
  (1 <? 1.3 / (1 + 8.5 * 1))%float = false /\
  maybeGrayscale (parser := Sample.cssParser) (Str "hsl(0, 100%, 50%)")
    = false /\
  buckets (parser := Sample.cssParser)
    (Sample.heapOf [mkEntry "Red" "red" (Str "#ff0000")])
    [Some [0]; Some []] = Ok ([0], [], [], []) /\
  (forall (parser : D3.Parser) (color : value),
     D3.d3Color (toString color) = Some (D3.mkColor None None None) ->
     isGrayscale color = Ok true).
Proof.
  repeat (split; [vm_compute; reflexivity |]).
  intros parser color H. unfold isGrayscale. rewrite H. reflexivity.
Qed.

(** C6. An entry that survives deduplication, whose colour the parser
    rejects and whose colour string matches the rgb()/rgba()/hsl()/hsla()
    call pattern, is in the non-standard-notation bucket, not in the
    unparsable one and not in the grayscale one, and in the output every
    grayscale entry comes after it. *)
Theorem C6_rejected_call_is_non_standard :
  forall (parser : D3.Parser) (hp : heap) (primary secondary : list loc)
         (x : loc),
    In x (uniqBy String.eqb (nameOf hp) (primary ++ secondary)) ->
    D3.d3Color (toString (color (hp x))) = None ->
    Notation.test (toString (color (hp x))) = true ->
    exists chromatic nonStandard unparsable grayscale before after,
      buckets hp [Some primary; Some secondary]
        = Ok (chromatic, nonStandard, unparsable, grayscale) /\
      In x nonStandard /\
      ~ In x unparsable /\
      ~ In x grayscale /\
      build hp [Some primary; Some secondary] = Ok (before ++ x :: after) /\
      (forall y, In y grayscale -> In y after).
Proof.
  intros parser hp primary secondary x Hx Hnone Htest.
  pose proof (buckets_eq hp [Some primary; Some secondary]) as Hk.
  pose proof (build_eq hp [Some primary; Some secondary]) as Hb.
  cbv zeta in Hk, Hb. simpl baseFlatten in Hk, Hb.
  rewrite app_nil_r in Hk, Hb.
  set (collection := uniqBy String.eqb (nameOf hp) (primary ++ secondary)) in *.
  assert (Hp : parses hp x = false) by (unfold parses; now rewrite Hnone).
  assert (Hfp : In x (filter (looksLikeCall hp)
                        (filter (fun y => negb (parses hp y)) collection))).
  { apply filter_In. split; [| exact Htest].
    apply filter_In. split; [exact Hx | now rewrite Hp]. }
  set (front := filter (fun y => negb (grayTest hp y))
                  (filter (parses hp) collection)
                ++ filter (looksLikeCall hp)
                     (filter (fun y => negb (parses hp y)) collection)
                ++ filter (fun y => negb (looksLikeCall hp y))
                     (filter (fun y => negb (parses hp y)) collection)) in *.
  assert (Hfront : In x (sortBy (nameOf hp) front)).
  { apply sortBy_In. unfold front. rewrite !in_app_iff. tauto. }
  apply in_split in Hfront as [l1 [l2 Hsplit]].
  exists (filter (fun y => negb (grayTest hp y)) (filter (parses hp) collection)),
    (filter (looksLikeCall hp) (filter (fun y => negb (parses hp y)) collection)),
    (filter (fun y => negb (looksLikeCall hp y))
       (filter (fun y => negb (parses hp y)) collection)),
    (filter (grayTest hp) (filter (parses hp) collection)),
    l1, (l2 ++ sortBy (nameOf hp)
                 (filter (grayTest hp) (filter (parses hp) collection))).
  split; [exact Hk |]. split; [exact Hfp |].
  split.
  { rewrite filter_In. unfold looksLikeCall at 1. rewrite Htest.
    intros [_ H]. discriminate H. }
  split.
  { rewrite !filter_In. rewrite Hp. intros [[_ H] _]. discriminate H. }
  split.
  { rewrite Hb, Hsplit, <- app_assoc. reflexivity. }
  intros y Hy. apply in_or_app. right. now apply sortBy_In.
Qed.

(** C6 on "rgb(var(--x))". *)
Lemma C6_witness :
  exists chromatic nonStandard unparsable grayscale before after,
    buckets (parser := Sample.hexParser) (Sample.heapOf Inputs.mixed)
      [Some [0; 2]; Some [1; 3]]
      = Ok (chromatic, nonStandard, unparsable, grayscale) /\
    In 1 nonStandard /\
    ~ In 1 unparsable /\
    ~ In 1 grayscale /\
    build (parser := Sample.hexParser) (Sample.heapOf Inputs.mixed)
      [Some [0; 2]; Some [1; 3]] = Ok (before ++ 1 :: after) /\
    (forall y, In y grayscale -> In y after).
Proof.
  apply (C6_rejected_call_is_non_standard Sample.hexParser
           (Sample.heapOf Inputs.mixed) [0; 2] [1; 3] 1).
  - vm_compute. right. right. left. reflexivity.
  - vm_compute. reflexivity.
  - vm_compute. reflexivity.
Defined.

(** C10. In [build] the two grayscale checks run only on the first
    partition, the entries whose colour the parser accepted: on each of
    them the destructuring in [isGrayscale] finds an object and the check
    returns, so [build] does not throw. Called on a string the parser
    rejects, [isGrayscale] throws a [TypeError]; it does not return
    [false]. *)
Theorem C10_gray_checks_only_on_parsed :
  forall (parser : D3.Parser) (hp : heap) (objects : list (option (list loc))),
    let collection :=
      uniqBy String.eqb (fun x => name (hp x)) (union objects) in
    let colors := fst (partition (parses hp) collection) in
    let maybeColors := snd (partition (parses hp) collection) in
    buckets hp objects
      = (p <- partitionM (grayish hp) colors ;;
         Ok (snd p,
             fst (partition (looksLikeCall hp) maybeColors),
             snd (partition (looksLikeCall hp) maybeColors),
             fst p)) /\
    (forall x, In x colors ->
       exists c exact gray,
         D3.d3Color (toString (color (hp x))) = Some c /\
         isGrayscale (color (hp x)) = Ok exact /\
         grayish hp x = Ok gray) /\
    (exists out, build hp objects = Ok out) /\
    (forall color,
       D3.d3Color (toString color) = None ->
       isGrayscale color
         = Throw (TypeError "Cannot destructure property 'r' of null")).
Proof.
  intros parser hp objects collection colors maybeColors.
  split; [| split; [| split]].
  - unfold buckets. fold collection.
    unfold colors, maybeColors.
    destruct (partition (parses hp) collection) as [cs ms]. simpl.
    destruct (partition (looksLikeCall hp) ms) as [fp nc]. simpl.
    destruct (partitionM (grayish hp) cs) as [[g ng] | e]; reflexivity.
  - intros x Hx. unfold colors in Hx.
    rewrite partition_as_filter in Hx. simpl in Hx.
    apply filter_In in Hx as [_ Hp].
    pose proof (grayish_parsed hp x Hp) as Hg.
    unfold parses in Hp. unfold isGrayscale.
    destruct (D3.d3Color (toString (color (hp x)))) as [c|]; [| discriminate].
    exists c, (strictEq (D3.r c) (D3.g c) && strictEq (D3.r c) (D3.b c)),
      (grayTest hp x).
    repeat split. exact Hg.
  - destruct (build_perm hp objects) as [out [Hb _]]. exists out. exact Hb.
  - intros color Hnone. unfold isGrayscale. now rewrite Hnone.
Qed.

(** ** [tailwind] and [transform] *)

Lemma mapM_In {A B} (f : A -> result B) (l : list A) :
  (forall x, In x l -> exists y, f x = Ok y) ->
  exists ys,
    mapM f l = Ok ys /\
    forall x y, In x l -> f x = Ok y -> In y ys.
Proof.
  induction l as [|a l IH]; intros H; simpl.
  - exists []. split; [reflexivity | intros x y []].
  - destruct (H a (or_introl eq_refl)) as [b Hb].
    destruct IH as [ys [Hys Hin]]; [intros x Hx; apply H; now right |].
    exists (b :: ys). rewrite Hb, Hys. simpl. split; [reflexivity |].
    intros x y [<- | Hx] Hy.
    + left. congruence.
    + right. eapply Hin; eassumption.
Qed.

Lemma get_In_keys {V} (o : list (string * V)) (k : string) (v : V) :
  get o k = Some v -> In k (keys o).
Proof.
  induction o as [|[k' v'] o IH]; simpl; [discriminate |].
  destruct (String.eqb_spec k k') as [-> | _]; [now left | right; now apply IH].
Qed.

Lemma hasOwnProperty_get {V} (o : list (string * V)) (k : string) :
  hasOwnProperty o k = true -> exists v, get o k = Some v.
Proof.
  unfold hasOwnProperty. rewrite includes_In.
  induction o as [|[k' v'] o IH]; simpl; [easy |].
  destruct (String.eqb_spec k k') as [-> | Hne]; [eauto |].
  intros [E | H]; [congruence | now apply IH].
Qed.

(** When no shade is named [hasOwnProperty], the method call is the own-key
    test. *)
Lemma callHasOwnProperty_inherited (o : list (string * string)) (k : string) :
  hasOwnProperty o "hasOwnProperty" = false ->
  callHasOwnProperty o k = Ok (hasOwnProperty o k).
Proof. intros H. unfold callHasOwnProperty. now rewrite H. Qed.

(** A shade named [hasOwnProperty] makes the method call throw. *)
Lemma callHasOwnProperty_shadowed (o : list (string * string)) (k : string) :
  hasOwnProperty o "hasOwnProperty" = true ->
  callHasOwnProperty o k
  = Throw (TypeError "hasOwnProperty is not a function").
Proof. intros H. unfold callHasOwnProperty. now rewrite H. Qed.

Section TailwindFacts.
Context {casing : Casing}.
Variable this : Plugin.

Lemma title_plain (key : string) :
  title this key None = startCase (camelCase key).
Proof. unfold title, titleBody. apply append_empty. Qed.

(** On a base with shades, [transform] returns for every shade key. *)
Lemma transform_shaded (key value : string) (o : list (string * string)) :
  get (tailwind_table this) key = Some (Shaded o) ->
  exists e, transform this key (Some value) false = Ok e.
Proof.
  intros Hget. unfold transform, tableAt2. rewrite Hget.
  destruct value as [|ch rest]; [eauto |].
  destruct (String.eqb "default" (toLowerCase (String ch rest)));
    destruct (get o (String ch rest)); simpl; eauto.
Qed.

Lemma transform_default (key value c : string) (o : list (string * string)) :
  get (tailwind_table this) key = Some (Shaded o) ->
  get o value = Some c ->
  toLowerCase value = "default" ->
  transform this key (Some value) false
    = Ok (mkEntry (startCase (camelCase key)) key (Str c)).
Proof.
  intros Hget Hc Hlow. unfold transform, tableAt2.
  rewrite Hget, Hc, Hlow, title_plain.
  destruct value as [|ch rest]; [discriminate Hlow |].
  reflexivity.
Qed.

(** With shades off and a key [500], the callback asks for that shade
    alone. *)
Lemma resolve_single_shade (key : string) (o : list (string * string)) :
  (String.eqb key EmptyString || includes (blacklist (options this)) key) = false ->
  get (tailwind_table this) key = Some (Shaded o) ->
  truthy (shades (tailwind_options (options this))) = false ->
  hasOwnProperty o "hasOwnProperty" = false ->
  hasOwnProperty o "500" = true ->
  resolve this key
    = (e <- transform this key (Some "500") false ;; Ok (One e)).
Proof.
  intros Hkey Hget Hsh Hcall H500. unfold resolve.
  rewrite Hkey, Hget, Hsh, (callHasOwnProperty_inherited o "500" Hcall), H500.
  reflexivity.
Qed.

(** When the callback returns an array, it holds the entry of every
    selected shade key. With shades off the method [hasOwnProperty] is
    called first, and has to be the inherited one. *)
Lemma resolve_selected (key value : string) (o : list (string * string))
    (e : ColorEntry) :
  (String.eqb key EmptyString || includes (blacklist (options this)) key) = false ->
  get (tailwind_table this) key = Some (Shaded o) ->
  In value (keys o) ->
  truthy (shades (tailwind_options (options this))) = true
  \/ hasOwnProperty o "hasOwnProperty" = false ->
  selects (shades (tailwind_options (options this))) o value = true ->
  transform this key (Some value) false = Ok e ->
  exists es, resolve this key = Ok (Many es) /\ In e es.
Proof.
  intros Hkey Hget Hin Hcall Hsel He. unfold resolve. rewrite Hkey, Hget.
  assert (Hall : forall l x, In x l ->
            exists y, transform this key (Some x) false = Ok y).
  { intros l x _. eapply transform_shaded. exact Hget. }
  destruct (shades (tailwind_options (options this))) as [[|] | a | labels];
    simpl in *.
  - destruct (mapM_In _ _ (Hall (keys o))) as [es [Hes Hi]].
    rewrite Hes. simpl. eauto.
  - destruct Hcall as [Hcall | Hcall]; [discriminate Hcall |].
    rewrite (callHasOwnProperty_inherited o "500" Hcall).
    apply negb_true_iff in Hsel. rewrite Hsel. simpl.
    destruct (mapM_In _ _ (Hall (keys o))) as [es [Hes Hi]].
    rewrite Hes. simpl. eauto.
  - destruct (mapM_In _ _ (Hall (filter (fun v => includes a v) (keys o))))
      as [es [Hes Hi]].
    rewrite Hes. simpl. eexists. split; [reflexivity |].
    eapply Hi; [| exact He]. apply filter_In. now split.
  - destruct (mapM_In _ _
                (Hall (filter (fun v => includes (keys labels) v) (keys o))))
      as [es [Hes Hi]].
    rewrite Hes. simpl. eexists. split; [reflexivity |].
    eapply Hi; [| exact He]. apply filter_In. now split.
Qed.
End TailwindFacts.

(** ** The blacklist *)

Lemma compact_app (l1 l2 : list (option ColorEntry)) :
  compact (l1 ++ l2) = compact l1 ++ compact l2.
Proof.
  induction l1 as [|[e|] l1 IH]; simpl; [reflexivity | now rewrite IH | exact IH].
Qed.

Lemma get_filter_keys {V} (p : string -> bool) (o : list (string * V))
    (k : string) :
  p k = true -> get (filter (fun kv => p (fst kv)) o) k = get o k.
Proof.
  intros Hk. induction o as [|[k' v] o IH]; simpl; [reflexivity |].
  destruct (String.eqb_spec k k') as [<- | Hne].
  - rewrite Hk. simpl. now rewrite String.eqb_refl.
  - destruct (p k'); simpl; [| exact IH].
    destruct (String.eqb_spec k k'); [contradiction | exact IH].
Qed.

Lemma keys_filter {V} (p : string -> bool) (o : list (string * V)) :
  keys (filter (fun kv => p (fst kv)) o) = filter p (keys o).
Proof.
  unfold keys. induction o as [|[k v] o IH]; simpl; [reflexivity |].
  destruct (p k); simpl; now rewrite IH.
Qed.

Section BlacklistFacts.
Context {casing : Casing}.
Variable this : Plugin.

Let allowed (k : string) : bool :=
  negb (includes (blacklist (options this)) k).

Lemma resolve_blacklisted (key : string) :
  includes (blacklist (options this)) key = true ->
  resolve this key = Ok Nothing.
Proof.
  intros H. unfold resolve. rewrite H, orb_true_r. reflexivity.
Qed.

Lemma get_without (key : string) :
  allowed key = true ->
  get (tailwind_table (withoutBlacklisted this)) key
  = get (tailwind_table this) key.
Proof. intros Hk. exact (get_filter_keys allowed _ key Hk). Qed.

Lemma transform_without (key : string) (value : option string) :
  allowed key = true ->
  transform (withoutBlacklisted this) key value false
  = transform this key value false.
Proof.
  intros Hk. unfold transform, tableAt, tableAt2.
  rewrite (get_without key Hk). reflexivity.
Qed.

Lemma mapM_transform_without (key : string) (values : list string) :
  allowed key = true ->
  mapM (fun value => transform (withoutBlacklisted this) key (Some value) false)
    values
  = mapM (fun value => transform this key (Some value) false) values.
Proof.
  intros Hk. induction values as [|x l IH]; [reflexivity |].
  cbn [mapM]. now rewrite (transform_without key (Some x) Hk), IH.
Qed.

Lemma resolve_without (key : string) :
  allowed key = true ->
  resolve (withoutBlacklisted this) key = resolve this key.
Proof.
  intros Hk. unfold resolve. cbv zeta.
  rewrite (get_without key Hk).
  change (options (withoutBlacklisted this)) with (options this).
  destruct (get (tailwind_table this) key) as [[c | o] |];
    rewrite ?transform_without, ?mapM_transform_without by exact Hk;
    reflexivity.
Qed.

(** The keys of blacklisted bases add nothing to what [tailwind]
    returns. *)
Lemma emit_without (ks : list string) :
  (rs <- mapM (resolve this) ks ;; Ok (compact (flat_map flatten rs)))
  = (rs <- mapM (resolve (withoutBlacklisted this)) (filter allowed ks) ;;
     Ok (compact (flat_map flatten rs))).
Proof.
  induction ks as [|k ks IH]; simpl; [reflexivity |].
  destruct (allowed k) eqn:Hk; simpl.
  - rewrite (resolve_without k Hk).
    destruct (resolve this k) as [r | e]; simpl; [| reflexivity].
    destruct (mapM (resolve this) ks) as [rs | e];
      destruct (mapM (resolve (withoutBlacklisted this)) (filter allowed ks))
        as [rs' | e']; simpl in *; try congruence.
    rewrite !compact_app. congruence.
  - unfold allowed in Hk. apply negb_false_iff in Hk.
    rewrite (resolve_blacklisted k Hk). simpl.
    destruct (mapM (resolve this) ks) as [rs | e]; simpl in *; exact IH.
Qed.

Lemma tailwind_without_blacklisted :
  tailwind this = tailwind (withoutBlacklisted this).
Proof.
  unfold tailwind. rewrite emit_without.
  replace (keys (tailwind_table (withoutBlacklisted this)))
    with (filter allowed (keys (tailwind_table this)));
    [reflexivity |].
  symmetry. exact (keys_filter allowed (tailwind_table this)).
Qed.
End BlacklistFacts.

(** C9. A base name of the blacklist makes the callback of [tailwind]
    return nothing, under every shade policy and whatever its value is (a
    colour, shades, or not in the table at all); nothing of it is left
    after the final filter, and [tailwind] returns what it returns on the
    table without the blacklisted bases. *)
Theorem C9_blacklisted_base_emits_nothing :
  forall (casing : Casing) (this : Plugin) (key : string),
    includes (blacklist (options this)) key = true ->
    resolve this key = Ok Nothing /\
    compact (flatten Nothing) = [] /\
    tailwind this = tailwind (withoutBlacklisted this) /\
    ~ In key (keys (tailwind_table (withoutBlacklisted this))).
Proof.
  intros casing this key H.
  split; [now apply resolve_blacklisted |].
  split; [reflexivity |].
  split; [apply tailwind_without_blacklisted |].
  simpl. rewrite (keys_filter
                    (fun k => negb (includes (blacklist (options this)) k))).
  rewrite filter_In, H. intros [_ E]. discriminate E.
Qed.

(** C9 on the default blacklist and a base [inherit] with shades. *)
Lemma C9_witness :
  resolve (casing := Sample.asciiCasing)
    (plugin defaultBlacklist (ShadesBool true) Inputs.withBlacklisted)
    "inherit" = Ok Nothing /\
  compact (flatten Nothing) = [] /\
  tailwind (casing := Sample.asciiCasing)
    (plugin defaultBlacklist (ShadesBool true) Inputs.withBlacklisted)
  = tailwind (casing := Sample.asciiCasing)
      (withoutBlacklisted
         (plugin defaultBlacklist (ShadesBool true) Inputs.withBlacklisted)) /\
  ~ In "inherit"
      (keys (tailwind_table
               (withoutBlacklisted
                  (plugin defaultBlacklist (ShadesBool true)
                     Inputs.withBlacklisted)))).
Proof.
  apply (C9_blacklisted_base_emits_nothing Sample.asciiCasing
           (plugin defaultBlacklist (ShadesBool true) Inputs.withBlacklisted)
           "inherit").
  reflexivity.
Defined.

(** ** Shade policies *)

(** With shades off and no key [500], none of the guarded returns fires
    and the callback ends in the return for all shades. *)
Lemma resolve_without_500 {casing : Casing} (this : Plugin) (key : string)
    (o : list (string * string)) :
  (String.eqb key EmptyString || includes (blacklist (options this)) key) = false ->
  get (tailwind_table this) key = Some (Shaded o) ->
  shades (tailwind_options (options this)) = ShadesBool false ->
  hasOwnProperty o "hasOwnProperty" = false ->
  hasOwnProperty o "500" = false ->
  resolve this key
    = (es <- mapM (fun value => transform this key (Some value) false) (keys o) ;;
       Ok (Many es)).
Proof.
  intros Hkey Hget Hsh Hcall H500. unfold resolve.
  rewrite Hkey, Hget, Hsh. cbn [truthy negb].
  rewrite (callHasOwnProperty_inherited o "500" Hcall), H500. reflexivity.
Qed.

(** With shades off and a colour [c] under the key [500], the callback
    returns that shade alone, named by the base. *)
Lemma resolve_uses_500 {casing : Casing} (this : Plugin) (key c : string)
    (o : list (string * string)) :
  (String.eqb key EmptyString || includes (blacklist (options this)) key)
    = false ->
  get (tailwind_table this) key = Some (Shaded o) ->
  shades (tailwind_options (options this)) = ShadesBool false ->
  hasOwnProperty o "hasOwnProperty" = false ->
  get o "500" = Some c ->
  resolve this key
    = Ok (One (mkEntry (startCase (camelCase key)) (key ++ "-500") (Str c))).
Proof.
  intros Hkey Hget Hsh Hcall Hc.
  rewrite (resolve_single_shade this key o Hkey Hget).
  - unfold transform, tableAt2. rewrite Hget, Hc, Hsh, title_plain.
    reflexivity.
  - now rewrite Hsh.
  - exact Hcall.
  - unfold hasOwnProperty. apply includes_In.
    eapply get_In_keys. exact Hc.
Qed.

Lemma keys_get {V} (o : list (string * V)) (k : string) :
  In k (keys o) -> exists v, get o k = Some v.
Proof.
  intros H. apply hasOwnProperty_get. unfold hasOwnProperty.
  now apply includes_In.
Qed.

(** The callback returns on every key of the colour table, unless shades
    are off and a shade of the base is named [hasOwnProperty]. *)
Lemma resolve_returns {casing : Casing} (this : Plugin) (key : string) :
  In key (keys (tailwind_table this)) ->
  (truthy (shades (tailwind_options (options this))) = true
   \/ forall o, get (tailwind_table this) key = Some (Shaded o) ->
                hasOwnProperty o "hasOwnProperty" = false) ->
  exists r, resolve this key = Ok r.
Proof.
  intros Hin Hcall. destruct (keys_get _ _ Hin) as [v Hget].
  unfold resolve. rewrite Hget.
  destruct (String.eqb key EmptyString
            || includes (blacklist (options this)) key); [eauto |].
  assert (Hall : forall l x, In x l ->
            exists y, transform this key (Some x) false = Ok y).
  { intros l x _. destruct v as [c | o].
    - unfold transform, tableAt2. rewrite Hget.
      destruct x as [|ch rest]; [eauto |].
      destruct (String.eqb "default" (toLowerCase (String ch rest)));
        destruct (indexOfKey (String.length c) (String ch rest));
        try destruct (String.eqb (String ch rest) "length"); simpl; eauto.
    - eapply transform_shaded. exact Hget. }
  destruct v as [c | o].
  - unfold transform. simpl. eauto.
  - assert (Hsingle : exists single,
              (if negb (truthy (shades (tailwind_options (options this))))
               then callHasOwnProperty o "500" else Ok false) = Ok single).
    { destruct Hcall as [Hcall | Hcall].
      - rewrite Hcall. simpl. eauto.
      - rewrite (callHasOwnProperty_inherited o "500" (Hcall o Hget)).
        destruct (negb (truthy (shades (tailwind_options (options this)))));
          eauto. }
    destruct Hsingle as [single Hsingle]. rewrite Hsingle.
    cbn [JS.bind]. destruct single.
    + destruct (Hall ["500"] "500" (or_introl eq_refl)) as [e He].
      rewrite He. simpl. eauto.
    + destruct (isArray (shades (tailwind_options (options this)))).
      * destruct (mapM_In _ _ (Hall (filter
                   (fun value => shadesIncludes
                      (shades (tailwind_options (options this))) value)
                   (keys o)))) as [es [Hes _]].
        rewrite Hes. simpl. eauto.
      * destruct (isObject (shades (tailwind_options (options this)))).
        -- destruct (mapM_In _ _ (Hall (filter
                     (fun value => includes
                        (shadesKeys (shades (tailwind_options (options this))))
                        value)
                     (keys o)))) as [es [Hes _]].
           rewrite Hes. simpl. eauto.
        -- destruct (mapM_In _ _ (Hall (keys o))) as [es [Hes _]].
           rewrite Hes. simpl. eauto.
Qed.

(** [tailwind()] returns an array for every colour table and policy,
    unless shades are off and a shade is named [hasOwnProperty]. *)
Lemma tailwind_returns {casing : Casing} (this : Plugin) :
  (truthy (shades (tailwind_options (options this))) = true
   \/ forall key o, get (tailwind_table this) key = Some (Shaded o) ->
                    hasOwnProperty o "hasOwnProperty" = false) ->
  exists es, tailwind this = Ok es.
Proof.
  intros Hcall. unfold tailwind.
  destruct (mapM_In (resolve this) (keys (tailwind_table this)))
    as [rs [Hrs _]].
  - intros key Hin. apply resolve_returns; [exact Hin |].
    destruct Hcall as [Hcall | Hcall]; [now left | right].
    intros o. apply Hcall.
  - rewrite Hrs. simpl. eauto.
Qed.

(** C2, the run that departs from the claim. Shades are off and the base
    [blue] has the shades [400] and [900] but no [500]: [tailwind] returns
    an entry for each of the two shades, where the claim has none for this
    base. With a key [500] the same policy returns that shade alone. *)
Theorem C2_shades_off_without_500 :
  tailwind (casing := Sample.asciiCasing)
    (plugin defaultBlacklist (ShadesBool false) Inputs.noDefaultShade)
  = Ok [ mkEntry "Blue" "blue-400" (Str "#abc");
         mkEntry "Blue" "blue-900" (Str "#001030") ] /\
  tailwind (casing := Sample.asciiCasing)
    (plugin defaultBlacklist (ShadesBool false) Inputs.blueShades)
  = Ok [ mkEntry "Blue" "blue-500" (Str "#4287f5") ].
Proof. split; vm_compute; reflexivity. Qed.

(** C3, as the code has it. For the table [{blue: {500: "#4287f5",
    900: "#001030"}}] and the list policy [["500"]], [tailwind] returns
    exactly one entry, with slug [blue-500] and colour [#4287f5]; its name
    is the title of the base followed by the title of the shade in
    parentheses, [Blue (500)]. *)
Theorem C3_list_policy_labels_the_shade :
  (forall casing : Casing,
     tailwind (plugin defaultBlacklist (ShadesArray ["500"]) Inputs.blueShades)
     = Ok [ mkEntry (startCase (camelCase "blue") ++ " ("
                       ++ startCase (camelCase "500") ++ ")")
              "blue-500" (Str "#4287f5") ]) /\
  tailwind (casing := Sample.asciiCasing)
    (plugin defaultBlacklist (ShadesArray ["500"]) Inputs.blueShades)
  = Ok [ mkEntry "Blue (500)" "blue-500" (Str "#4287f5") ].
Proof.
  split.
  - intros casing. unfold tailwind, resolve, transform, title, titleBody.
    simpl. rewrite append_empty. reflexivity.
  - vm_compute. reflexivity.
Qed.

(** C3, as stated, fails: the entry returned is not the one named
    [Blue]. *)
Lemma C3_name_is_not_bare :
  tailwind (casing := Sample.asciiCasing)
    (plugin defaultBlacklist (ShadesArray ["500"]) Inputs.blueShades)
  <> Ok [ mkEntry "Blue" "blue-500" (Str "#4287f5") ].
Proof. vm_compute. discriminate. Qed.

(** C8, as the code has it. For a base with shades and a shade key equal
    to [default] up to case, [transform] returns the entry whose slug is
    the base name alone, whose name is the title of the base name alone,
    and whose colour is the one stored under that key; and when the base
    is not skipped and the shade policy, being [true], a list or an object
    of labels, selects that key, this entry is in the array the callback
    of [tailwind] returns. *)
Theorem C8_default_shade_has_no_suffix :
  forall (casing : Casing) (this : Plugin) (key value c : string)
         (o : list (string * string)),
    get (tailwind_table this) key = Some (Shaded o) ->
    get o value = Some c ->
    toLowerCase value = "default" ->
    transform this key (Some value) false
      = Ok (mkEntry (startCase (camelCase key)) key (Str c)) /\
    title this key None = startCase (camelCase key) /\
    ((String.eqb key EmptyString || includes (blacklist (options this)) key) = false ->
     truthy (shades (tailwind_options (options this))) = true ->
     selects (shades (tailwind_options (options this))) o value = true ->
     exists es,
       resolve this key = Ok (Many es) /\
       In (mkEntry (startCase (camelCase key)) key (Str c)) es).
Proof.
  intros casing this key value c o Hget Hc Hlow.
  pose proof (transform_default this key value c o Hget Hc Hlow) as Ht.
  split; [exact Ht |]. split; [apply title_plain |].
  intros Hkey Hsh Hsel.
  eapply resolve_selected; try eassumption.
  - eapply get_In_keys. exact Hc.
  - now left.
Qed.

(** C8 on the shades [{50: "#eef", default: "#246"}] of [blue], all shades
    being asked for. *)
Lemma C8_witness :
  transform (casing := Sample.asciiCasing)
    (plugin defaultBlacklist (ShadesBool true) Inputs.withDefault)
    "blue" (Some "default") false
    = Ok (mkEntry "Blue" "blue" (Str "#246")) /\
  exists es,
    resolve (casing := Sample.asciiCasing)
      (plugin defaultBlacklist (ShadesBool true) Inputs.withDefault) "blue"
      = Ok (Many es) /\
    In (mkEntry "Blue" "blue" (Str "#246")) es.
Proof.
  destruct (C8_default_shade_has_no_suffix Sample.asciiCasing
              (plugin defaultBlacklist (ShadesBool true) Inputs.withDefault)
              "blue" "default" "#246" [("50", "#eef"); ("default", "#246")])
    as [Ht [_ Hr]]; try reflexivity.
  split; [exact Ht |].
  apply Hr; reflexivity.
Defined.

(** C8, as stated, fails: the same base under the list policy [["50"]].
    The key [default] is not in the list, and [tailwind] returns the entry
    of the shade [50] alone; no entry has the bare slug [blue]. *)
Lemma C8_unlisted_default_is_dropped :
  exists es,
    tailwind (casing := Sample.asciiCasing)
      (plugin defaultBlacklist (ShadesArray ["50"]) Inputs.withDefault)
    = Ok es /\
    es = [ mkEntry "Blue (50)" "blue-50" (Str "#eef") ] /\
    forall e, In e es -> slug e <> "blue".
Proof.
  eexists. split; [vm_compute; reflexivity |].
  split; [reflexivity |].
  intros e [<- | []]. discriminate.
Qed.

(** * Further properties *)

(** ** Sorting is canonical on distinct names *)

Section SortCanonical.
Context {A : Type}.
Variable key : A -> string.

Let le (x y : A) : Prop := String.leb (key x) (key y) = true.

Lemma sortBy_fixed (l : list A) : StronglySorted le l -> sortBy key l = l.
Proof.
  induction 1 as [|x l Hs IH Hall]; simpl; [reflexivity |].
  rewrite IH. destruct l as [|y l']; [reflexivity |].
  simpl. inversion Hall as [|? ? Hxy _]; subst.
  unfold le in Hxy. now rewrite Hxy.
Qed.

Lemma sorted_perm_eq (l1 l2 : list A) :
  StronglySorted le l1 -> StronglySorted le l2 ->
  Permutation l1 l2 -> NoDup (map key l2) -> l1 = l2.
Proof.
  intros H1. revert l2.
  induction H1 as [|x l1 Hs1 IH Hall1]; intros l2 H2 Hp Hnd.
  - apply Permutation_nil in Hp. now subst.
  - destruct l2 as [|y l2].
    + apply Permutation_sym, Permutation_nil in Hp. discriminate.
    + inversion H2 as [|? ? Hs2 Hall2]; subst.
      inversion Hnd as [|? ? Hny Hnd2]; subst.
      assert (Hxy : x = y).
      { assert (Hx : In x (y :: l2))
          by (apply (Permutation_in _ Hp); now left).
        assert (Hy : In y (x :: l1))
          by (apply (Permutation_in _ (Permutation_sym Hp)); now left).
        destruct Hx as [<- | Hx]; [reflexivity |].
        destruct Hy as [<- | Hy]; [reflexivity |].
        rewrite Forall_forall in Hall1, Hall2.
        pose proof (Hall1 _ Hy) as Ha. pose proof (Hall2 _ Hx) as Hb.
        unfold le in Ha, Hb.
        pose proof (String.leb_antisym _ _ Ha Hb) as Hk.
        exfalso. apply Hny. rewrite <- Hk. now apply in_map. }
      subst y. f_equal. apply IH; try assumption.
      now apply Permutation_cons_inv in Hp.
Qed.

Lemma sortBy_perm_eq (l1 l2 : list A) :
  Permutation l1 l2 -> NoDup (map key l1) -> sortBy key l1 = sortBy key l2.
Proof.
  intros Hp Hnd. apply sorted_perm_eq.
  - apply sortBy_sorted.
  - apply sortBy_sorted.
  - rewrite !sortBy_perm. exact Hp.
  - eapply Permutation_NoDup; [| exact Hnd].
    apply Permutation_map. rewrite sortBy_perm. exact Hp.
Qed.
End SortCanonical.

Lemma filter_perm {A} (f : A -> bool) (l1 l2 : list A) :
  Permutation l1 l2 -> Permutation (filter f l1) (filter f l2).
Proof.
  induction 1 as [| x l1 l2 Hp IH | x y l | l1 l2 l3 Hp1 IH1 Hp2 IH2]; simpl.
  - constructor.
  - destruct (f x); [now apply perm_skip | exact IH].
  - destruct (f x), (f y); try reflexivity. apply perm_swap.
  - etransitivity; eassumption.
Qed.

Lemma NoDup_map_filter {A B} (key : A -> B) (f : A -> bool) (l : list A) :
  NoDup (map key l) -> NoDup (map key (filter f l)).
Proof.
  induction l as [|x l IH]; simpl; intros H; [constructor |].
  inversion H as [|? ? Hn Hnd]; subst.
  destruct (f x); simpl; [| now apply IH].
  constructor; [| now apply IH].
  intros Hin. apply Hn. apply in_map_iff in Hin as [y [Hy Hin]].
  apply filter_In in Hin as [Hin _]. rewrite <- Hy. now apply in_map.
Qed.

Lemma filter_none {A} (f : A -> bool) (l : list A) :
  (forall x, In x l -> f x = false) -> filter f l = [].
Proof.
  induction l as [|x l IH]; simpl; intros H; [reflexivity |].
  rewrite (H x (or_introl eq_refl)). apply IH. intros y Hy. apply H. now right.
Qed.

Lemma filter_all {A} (f : A -> bool) (l : list A) :
  (forall x, In x l -> f x = true) -> filter f l = l.
Proof.
  induction l as [|x l IH]; simpl; intros H; [reflexivity |].
  rewrite (H x (or_introl eq_refl)). f_equal. apply IH.
  intros y Hy. apply H. now right.
Qed.

Lemma uniqBy_NoDup_id {A} (key : A -> string) (l : list A) :
  NoDup (map key l) -> uniqBy String.eqb key l = l.
Proof.
  unfold uniqBy.
  assert (H : forall seen,
             (forall x, In x l -> ~ In (key x) seen) ->
             NoDup (map key l) -> baseUniq String.eqb key seen l = l).
  { induction l as [|x l IH]; intros seen Hs Hnd; simpl; [reflexivity |].
    inversion Hnd as [|? ? Hn Hnd']; subst.
    assert (E : existsb (String.eqb (key x)) seen = false).
    { apply (seen_not_In String.eqb String.eqb_eq). apply Hs. now left. }
    rewrite E. f_equal. apply IH; [| exact Hnd'].
    intros y Hy [Hk | Hk].
    - apply Hn. rewrite Hk. now apply in_map.
    - apply (Hs y); [now right | exact Hk]. }
  apply H. intros x _ [].
Qed.

(** ** [build] as two filters *)

Section BuildCanonical.
Context {parser : D3.Parser}.
Variable hp : heap.

Lemma grayTest_parses (x : loc) : grayTest hp x = true -> parses hp x = true.
Proof.
  unfold grayTest, parses.
  now destruct (D3.d3Color (toString (color (hp x)))).
Qed.

Lemma filter_gray_parsed (l : list loc) :
  filter (grayTest hp) (filter (parses hp) l) = filter (grayTest hp) l.
Proof.
  induction l as [|x l IH]; simpl; [reflexivity |].
  destruct (parses hp x) eqn:Hp; simpl.
  - now rewrite IH.
  - destruct (grayTest hp x) eqn:Hg; [| exact IH].
    apply grayTest_parses in Hg. congruence.
Qed.

Lemma front_perm (l : list loc) :
  Permutation
    (filter (fun x => negb (grayTest hp x)) (filter (parses hp) l)
       ++ filter (looksLikeCall hp) (filter (fun x => negb (parses hp x)) l)
       ++ filter (fun x => negb (looksLikeCall hp x))
            (filter (fun x => negb (parses hp x)) l))
    (filter (fun x => negb (grayTest hp x)) l).
Proof.
  induction l as [|x l IH]; simpl; [reflexivity |].
  destruct (parses hp x) eqn:Hp; simpl.
  - destruct (grayTest hp x); simpl; [exact IH | now apply perm_skip].
  - assert (Hg : grayTest hp x = false).
    { destruct (grayTest hp x) eqn:Hg; [| reflexivity].
      apply grayTest_parses in Hg. congruence. }
    rewrite Hg. simpl.
    destruct (looksLikeCall hp x); simpl.
    + rewrite <- IH. symmetry. apply Permutation_middle.
    + rewrite <- IH. symmetry.
      rewrite app_assoc. etransitivity; [apply Permutation_middle |].
      rewrite <- app_assoc. reflexivity.
Qed.

(** With names unique after deduplication, the three non-gray buckets
    sorted together are the non-gray entries sorted. *)
Lemma build_two_filters (objects : list (option (list loc))) :
  let collection := uniqBy String.eqb (nameOf hp) (baseFlatten objects) in
  build hp objects =
    Ok (sortBy (nameOf hp) (filter (fun x => negb (grayTest hp x)) collection)
        ++ sortBy (nameOf hp) (filter (grayTest hp) collection)).
Proof.
  intros collection. rewrite build_eq. cbv zeta. fold collection.
  rewrite filter_gray_parsed. f_equal. f_equal.
  apply sortBy_perm_eq; [apply front_perm |].
  eapply Permutation_NoDup.
  - apply Permutation_map. symmetry. apply front_perm.
  - apply NoDup_map_filter. apply baseUniq_NoDup. exact String.eqb_eq.
Qed.
End BuildCanonical.

(** ** Composition of [build] *)

Lemma build_of_sorted_groups {parser : D3.Parser} (hp : heap) (c : list loc) :
  NoDup (map (nameOf hp) c) ->
  let out := sortBy (nameOf hp) (filter (fun x => negb (grayTest hp x)) c)
             ++ sortBy (nameOf hp) (filter (grayTest hp) c) in
  build hp [Some out] = Ok out.
Proof.
  intros Hnd out.
  set (F := sortBy (nameOf hp) (filter (fun x => negb (grayTest hp x)) c)) in *.
  set (G := sortBy (nameOf hp) (filter (grayTest hp) c)) in *.
  assert (HF : forall x, In x F -> grayTest hp x = false).
  { intros x Hx. apply sortBy_In, filter_In in Hx as [_ Hx].
    now apply negb_true_iff. }
  assert (HG : forall x, In x G -> grayTest hp x = true).
  { intros x Hx. now apply sortBy_In, filter_In in Hx as [_ Hx]. }
  assert (Hout : NoDup (map (nameOf hp) out)).
  { eapply Permutation_NoDup; [| exact Hnd].
    apply Permutation_map. unfold out, F, G. rewrite !sortBy_perm.
    symmetry. etransitivity; [apply Permutation_app_comm |].
    apply (filter_split_perm (grayTest hp)). }
  rewrite build_two_filters. cbv zeta. simpl baseFlatten. rewrite app_nil_r.
  rewrite (uniqBy_NoDup_id _ _ Hout). unfold out.
  rewrite !filter_app.
  rewrite (filter_all _ F), (filter_none _ G), (filter_none _ F),
    (filter_all _ G); try assumption.
  - rewrite app_nil_r. simpl.
    rewrite (sortBy_fixed (nameOf hp) F), (sortBy_fixed (nameOf hp) G);
      [reflexivity | apply sortBy_sorted | apply sortBy_sorted].
  - intros x Hx. now rewrite (HG x Hx).
  - intros x Hx. now rewrite (HF x Hx).
Qed.

(** X1. [build] is idempotent: its output, passed back to it as the only
    source, comes out unchanged. *)
Theorem X1_build_idempotent :
  forall (parser : D3.Parser) (hp : heap) (objects : list (option (list loc))),
    (out <- build hp objects ;; build hp [Some out]) = build hp objects.
Proof.
  intros parser hp objects. rewrite build_two_filters. cbv zeta. simpl JS.bind.
  apply build_of_sorted_groups. apply baseUniq_NoDup. exact String.eqb_eq.
Qed.

(** Two argument lists whose arrays hold the same entries, names all
    distinct, give the same output. *)
Lemma build_same_entries {parser : D3.Parser} (hp : heap)
    (objects1 objects2 : list (option (list loc))) :
  NoDup (map (nameOf hp) (baseFlatten objects1)) ->
  Permutation (baseFlatten objects1) (baseFlatten objects2) ->
  build hp objects1 = build hp objects2.
Proof.
  intros Hnd Hp.
  assert (Hnd' : NoDup (map (nameOf hp) (baseFlatten objects2))).
  { eapply Permutation_NoDup; [| exact Hnd]. now apply Permutation_map. }
  rewrite !build_two_filters. cbv zeta.
  rewrite (uniqBy_NoDup_id _ _ Hnd), (uniqBy_NoDup_id _ _ Hnd').
  f_equal. f_equal.
  - apply sortBy_perm_eq; [now apply filter_perm | now apply NoDup_map_filter].
  - apply sortBy_perm_eq; [now apply filter_perm | now apply NoDup_map_filter].
Qed.

(** X2. When no name occurs twice in the two sources together, the order
    in which they are passed does not matter: the output is the same
    array. *)
Theorem X2_priority_irrelevant_without_collisions :
  forall (parser : D3.Parser) (hp : heap) (primary secondary : list loc),
    NoDup (map (nameOf hp) (primary ++ secondary)) ->
    build hp [Some primary; Some secondary]
    = build hp [Some secondary; Some primary].
Proof.
  intros parser hp primary secondary Hnd.
  apply build_same_entries; simpl; rewrite !app_nil_r.
  - exact Hnd.
  - apply Permutation_app_comm.
Qed.

(** X2 on the four entries of [Inputs.mixed], split two and two. *)
Lemma X2_witness :
  build (parser := Sample.hexParser) (Sample.heapOf Inputs.mixed)
    [Some [0; 2]; Some [1; 3]]
  = build (parser := Sample.hexParser) (Sample.heapOf Inputs.mixed)
      [Some [1; 3]; Some [0; 2]].
Proof.
  apply (X2_priority_irrelevant_without_collisions Sample.hexParser
           (Sample.heapOf Inputs.mixed) [0; 2] [1; 3]).
  vm_compute. repeat constructor; simpl; intuition discriminate.
Defined.

(** ** Sources that add nothing *)

Lemma baseFlatten_app {A} (l1 l2 : list (option (list A))) :
  baseFlatten (l1 ++ l2) = baseFlatten l1 ++ baseFlatten l2.
Proof.
  induction l1 as [|[a|] l1 IH]; simpl; [reflexivity | | exact IH].
  now rewrite IH, app_assoc.
Qed.

Lemma baseUniq_all_seen {A} (key : A -> string) (seen : list string)
    (l : list A) :
  (forall x, In x l -> existsb (String.eqb (key x)) seen = true) ->
  baseUniq String.eqb key seen l = [].
Proof.
  induction l as [|a l IH]; intros H; [reflexivity |].
  cbn [baseUniq]. rewrite (H a (or_introl eq_refl)).
  apply IH. intros x Hx. apply H. now right.
Qed.

(** Elements whose keys are all seen, or carried by an element before
    them, do not survive [baseUniq]. *)
Lemma baseUniq_absorbs {A} (key : A -> string) (l extra : list A) :
  forall seen,
    (forall x, In x extra ->
       existsb (String.eqb (key x)) seen = true
       \/ exists y, In y l /\ key y = key x) ->
    baseUniq String.eqb key seen (l ++ extra) = baseUniq String.eqb key seen l.
Proof.
  induction l as [|a l IH]; intros seen H.
  - cbn [app baseUniq]. apply baseUniq_all_seen.
    intros x Hx. destruct (H x Hx) as [Hs | [y [[] _]]]. exact Hs.
  - cbn [app baseUniq].
    destruct (existsb (String.eqb (key a)) seen) eqn:Ha.
    + apply IH. intros x Hx.
      destruct (H x Hx) as [Hs | [y [[<- | Hy] Hk]]].
      * now left.
      * left. now rewrite <- Hk.
      * right. eauto.
    + f_equal. apply IH. intros x Hx.
      destruct (H x Hx) as [Hs | [y [[<- | Hy] Hk]]].
      * left. cbn [existsb]. rewrite Hs. apply orb_true_r.
      * left. cbn [existsb]. rewrite Hk, String.eqb_refl. reflexivity.
      * right. eauto.
Qed.

(** X3. A source array all of whose names are already carried by the
    sources passed before it adds nothing to what [build] returns, so the
    later of two sources only contributes its new names; in particular
    passing every source a second time changes nothing. *)
Theorem X3_later_source_adds_only_new_names :
  forall (parser : D3.Parser) (hp : heap) (objects : list (option (list loc)))
         (extra : list loc),
    (forall x, In x extra ->
       exists y, In y (baseFlatten objects) /\ nameOf hp y = nameOf hp x) ->
    build hp (objects ++ [Some extra]) = build hp objects /\
    build hp (objects ++ objects) = build hp objects.
Proof.
  intros parser hp objects extra H.
  rewrite !build_two_filters. cbv zeta. unfold uniqBy.
  rewrite !baseFlatten_app. cbn [baseFlatten]. rewrite app_nil_r.
  split.
  - rewrite (baseUniq_absorbs (nameOf hp) (baseFlatten objects) extra []);
      [reflexivity |].
    intros x Hx. right. now apply H.
  - rewrite (baseUniq_absorbs (nameOf hp) (baseFlatten objects)
               (baseFlatten objects) []); [reflexivity |].
    intros x Hx. right. eauto.
Qed.

(** X3 on the two [Red] entries of [Inputs.reds]: the second one adds
    nothing after the first. *)
Lemma X3_witness :
  build (parser := Sample.hexParser) (Sample.heapOf Inputs.reds)
    ([Some [0]] ++ [Some [1]])
  = build (parser := Sample.hexParser) (Sample.heapOf Inputs.reds) [Some [0]]
  /\
  build (parser := Sample.hexParser) (Sample.heapOf Inputs.reds)
    ([Some [0]] ++ [Some [0]])
  = build (parser := Sample.hexParser) (Sample.heapOf Inputs.reds) [Some [0]].
Proof.
  apply (X3_later_source_adds_only_new_names Sample.hexParser
           (Sample.heapOf Inputs.reds) [Some [0]] [1]).
  intros x [<- | []]. exists 0. split; [now left | reflexivity].
Defined.

(** ** [NaN] and the perceptual check *)

Lemma isNaN_spec (x : float) : isNaN x = true -> Prim2SF x = S754_nan.
Proof.
  unfold isNaN. rewrite eqb_spec. unfold SFeqb, SFcompare.
  destruct (Prim2SF x) as [[|] | [|] | | [|] m e]; try discriminate;
    try reflexivity;
    rewrite Z.compare_refl;
    change (Pos.compare_cont Eq m m) with (Pos.compare m m);
    rewrite Pos.compare_refl; discriminate.
Qed.

Lemma belowCurve_NaN (s v : float) :
  isNaN s = true \/ isNaN v = true -> belowCurve s v = false.
Proof.
  unfold belowCurve. rewrite ltb_spec. intros [Hs | Hv].
  - apply isNaN_spec in Hs.
    rewrite div_spec, add_spec, mul_spec, Hs.
    assert (E : SF64div (Prim2SF 1.3)
                  (SF64add (Prim2SF 1) (SF64mul (Prim2SF 8.5) S754_nan))
                = S754_nan) by (vm_compute; reflexivity).
    rewrite E. unfold SFltb, SFcompare.
    now destruct (Prim2SF v) as [[|] | [|] | | [|] m e].
  - apply isNaN_spec in Hv. rewrite Hv. reflexivity.
Qed.

(** X4. A colour whose HSV saturation or value is [NaN] never passes the
    perceptual check: [maybeGrayscale] returns [false] for it, so only
    the exact check can make it gray. *)
Theorem X4_NaN_fails_perceptual_check :
  forall (parser : D3.Parser) (color : value),
    isNaN (D3.s (D3.d3Hsv (toString color))) = true
    \/ isNaN (D3.v (D3.d3Hsv (toString color))) = true ->
    maybeGrayscale color = false.
Proof.
  intros parser color H. unfold maybeGrayscale. now apply belowCurve_NaN.
Qed.

(** X4 on a string that is not a colour. *)
Lemma X4_witness :
  maybeGrayscale (parser := Sample.hexParser) (Str "var(--y)") = false.
Proof.
  apply (X4_NaN_fails_perceptual_check Sample.hexParser (Str "var(--y)")).
  left. vm_compute. reflexivity.
Defined.

(** ** Where the entries of [tailwind] come from *)

Lemma mapM_inv {A B} (f : A -> result B) (l : list A) (ys : list B) :
  mapM f l = Ok ys -> Forall2 (fun x y => f x = Ok y) l ys.
Proof.
  revert ys. induction l as [|a l IH]; intros ys; simpl.
  - intros [= <-]. constructor.
  - destruct (f a) as [b | e] eqn:Hb; simpl; [| discriminate].
    destruct (mapM f l) as [ys' | e]; simpl; [| discriminate].
    intros [= <-]. constructor; [exact Hb | now apply IH].
Qed.

Lemma mapM_inv_In {A B} (f : A -> result B) (l : list A) (ys : list B) (y : B) :
  mapM f l = Ok ys -> In y ys -> exists x, In x l /\ f x = Ok y.
Proof.
  intros H. apply mapM_inv in H.
  induction H as [|x y' l ys Hxy _ IH]; intros Hin; [destruct Hin |].
  destruct Hin as [<- | Hin].
  - exists x. split; [now left | exact Hxy].
  - destruct (IH Hin) as [x' [Hx' Hf]]. exists x'. split; [now right | exact Hf].
Qed.

Lemma mapM_length {A B} (f : A -> result B) (l : list A) (ys : list B) :
  mapM f l = Ok ys -> List.length ys = List.length l.
Proof.
  intros H. apply mapM_inv in H. symmetry. eapply Forall2_length. exact H.
Qed.

Lemma compact_flatten_In (rs : list Emitted) (e : ColorEntry) :
  In e (compact (flat_map flatten rs)) <-> exists r, In r rs /\ emits r e.
Proof.
  induction rs as [|r rs IH]; simpl.
  - split; [intros [] | intros [r [[] _]]].
  - rewrite compact_app, in_app_iff, IH. split.
    + intros [H | [r' [Hr He]]].
      * exists r. split; [now left |].
        destruct r as [| e' | es]; simpl in *.
        -- destruct H.
        -- destruct H as [H | []]. exact H.
        -- clear IH. induction es as [|a es IHes]; simpl in *; [destruct H |].
           destruct H as [H | H]; [now left | right; now apply IHes].
      * exists r'. split; [now right | exact He].
    + intros [r' [[<- | Hr] He]].
      * left. destruct r as [| e' | es]; simpl in *.
        -- destruct He.
        -- now left.
        -- clear IH. induction es as [|a es IHes]; simpl in *; [destruct He |].
           destruct He as [He | He]; [now left | right; now apply IHes].
      * right. exists r'. split; assumption.
Qed.

Section Provenance.
Context {casing : Casing}.
Variable this : Plugin.

Let policy : Shades := shades (tailwind_options (options this)).

(** How a shade key comes to be passed to [transform]: as the single
    shade [500] when shades are off, or selected by the policy. *)
Let picked (o : list (string * string)) (value : string) : Prop :=
  (truthy policy = false /\ hasOwnProperty o "500" = true /\ value = "500")
  \/ selects policy o value = true.

(** What the callback leaves for one key: an entry built from a colour,
    or one built from a shade key of the base. *)
Lemma resolve_emits (key : string) (r : Emitted) (e : ColorEntry) :
  resolve this key = Ok r -> emits r e ->
  (String.eqb key EmptyString || includes (blacklist (options this)) key)
    = false /\
  ((exists c, get (tailwind_table this) key = Some (Plain c) /\
              transform this key None false = Ok e) \/
   (exists o value,
      get (tailwind_table this) key = Some (Shaded o) /\
      In value (keys o) /\
      picked o value /\
      transform this key (Some value) false = Ok e)).
Proof.
  unfold resolve. fold policy.
  destruct (String.eqb key EmptyString
            || includes (blacklist (options this)) key) eqn:Hkey.
  { intros [= <-] []. }
  destruct (get (tailwind_table this) key) as [[c | o] |] eqn:Hget;
    [| | discriminate].
  - destruct (transform this key None false) as [e' | err] eqn:Ht;
      simpl; [| discriminate].
    intros [= <-] He. simpl in He. subst e'.
    split; [reflexivity |]. left. eauto.
  - destruct (if negb (truthy policy)
              then callHasOwnProperty o "500"
              else Ok false) as [single | err] eqn:Hcall;
      cbn [JS.bind]; [| discriminate].
    assert (Hsingle : negb (truthy policy) && hasOwnProperty o "500" = single).
    { destruct (truthy policy); simpl in *; [congruence |].
      unfold callHasOwnProperty in Hcall.
      destruct (hasOwnProperty o "hasOwnProperty"); congruence. }
    clear Hcall. destruct single.
    + apply andb_true_iff in Hsingle as [Hoff H500].
      apply negb_true_iff in Hoff.
      destruct (transform this key (Some "500") false) as [e' | err] eqn:Ht;
        simpl; [| discriminate].
      intros [= <-] He. simpl in He. subst e'.
      split; [reflexivity |]. right. exists o, "500".
      split; [reflexivity |].
      split; [now apply includes_In in H500 |].
      split; [left; auto | exact Ht].
    + assert (Hmany : forall l es,
                (forall x, In x l -> In x (keys o) /\ picked o x) ->
                mapM (fun value => transform this key (Some value) false) l
                  = Ok es ->
                In e es ->
                exists o' value,
                  Some (Shaded o) = Some (Shaded o') /\
                  In value (keys o') /\
                  picked o' value /\
                  transform this key (Some value) false = Ok e).
      { intros l es Hl Hes He.
        destruct (mapM_inv_In _ _ _ _ Hes He) as [value [Hv Ht]].
        destruct (Hl _ Hv) as [Hk Hp].
        exists o, value. repeat split; auto. }
      unfold picked in *.
      destruct policy as [[|] | a | labels]; simpl in *.
      * destruct (mapM _ (keys o)) as [es | err] eqn:Hes;
          simpl; [| discriminate].
        intros [= <-] He. simpl in He. split; [reflexivity |]. right.
        eapply Hmany; [| exact Hes | exact He]. auto.
      * destruct (mapM _ (keys o)) as [es | err] eqn:Hes;
          simpl; [| discriminate].
        intros [= <-] He. simpl in He. split; [reflexivity |]. right.
        eapply Hmany; [| exact Hes | exact He].
        intros x Hx. split; [exact Hx |]. right. now rewrite Hsingle.
      * destruct (mapM _ (filter _ (keys o))) as [es | err] eqn:Hes;
          simpl; [| discriminate].
        intros [= <-] He. simpl in He. split; [reflexivity |]. right.
        eapply Hmany; [| exact Hes | exact He].
        intros x Hx. apply filter_In in Hx as [Hx Hs]. auto.
      * destruct (mapM _ (filter _ (keys o))) as [es | err] eqn:Hes;
          simpl; [| discriminate].
        intros [= <-] He. simpl in He. split; [reflexivity |]. right.
        eapply Hmany; [| exact Hes | exact He].
        intros x Hx. apply filter_In in Hx as [Hx Hs]. auto.
Qed.

Lemma tailwind_In (es : list ColorEntry) (e : ColorEntry) :
  tailwind this = Ok es -> In e es ->
  exists key,
    In key (keys (tailwind_table this)) /\
    (String.eqb key EmptyString || includes (blacklist (options this)) key)
      = false /\
    ((exists c, get (tailwind_table this) key = Some (Plain c) /\
                transform this key None false = Ok e) \/
     (exists o value,
        get (tailwind_table this) key = Some (Shaded o) /\
        In value (keys o) /\
        ((truthy policy = false /\ hasOwnProperty o "500" = true /\
          value = "500")
         \/ selects policy o value = true) /\
        transform this key (Some value) false = Ok e)).
Proof.
  unfold tailwind.
  destruct (mapM (resolve this) (keys (tailwind_table this)))
    as [rs | err] eqn:Hrs; simpl; [| discriminate].
  intros [= <-] He. apply compact_flatten_In in He as [r [Hr He]].
  destruct (mapM_inv_In _ _ _ _ Hrs Hr) as [key [Hkey Hres]].
  exists key. split; [exact Hkey |].
  eapply resolve_emits; eassumption.
Qed.

(** The three shapes of an entry built from a shade key. *)
Lemma transform_shade_cases (key value : string) (o : list (string * string))
    (e : ColorEntry) :
  get (tailwind_table this) key = Some (Shaded o) ->
  In value (keys o) ->
  transform this key (Some value) false = Ok e ->
  (value = EmptyString /\
   e = mkEntry (startCase (camelCase key)) key (Obj o)) \/
  (value <> EmptyString /\ toLowerCase value = "default" /\
   exists c, get o value = Some c /\
             e = mkEntry (startCase (camelCase key)) key (Str c)) \/
  (value <> EmptyString /\ toLowerCase value <> "default" /\
   exists c, get o value = Some c /\
             e = mkEntry (if truthy policy then title this key (Some value)
                          else startCase (camelCase key))
                   (key ++ "-" ++ value) (Str c)).
Proof.
  intros Hget Hin. destruct (keys_get _ _ Hin) as [c Hc].
  unfold transform, tableAt, tableAt2. rewrite Hget, Hc, !title_plain.
  fold policy.
  destruct value as [|ch rest].
  - intros [= <-]. left. split; reflexivity.
  - destruct (String.eqb_spec "default" (toLowerCase (String ch rest)))
      as [Hd | Hd]; simpl; intros [= <-]; right.
    + left. split; [discriminate |]. split; [now symmetry |]. eauto.
    + right. split; [discriminate |].
      split; [intros E; apply Hd; symmetry; exact E |]. eauto.
Qed.
End Provenance.

Lemma mapM_pure {A B} (f : A -> result B) (g : A -> B) (l : list A) :
  (forall x, In x l -> f x = Ok (g x)) -> mapM f l = Ok (map g l).
Proof.
  induction l as [|a l IH]; intros H; simpl; [reflexivity |].
  rewrite (H a (or_introl eq_refl)). simpl.
  rewrite IH by (intros x Hx; apply H; now right). reflexivity.
Qed.

Lemma key_not_empty (key : string) (b : bool) :
  (String.eqb key EmptyString || b) = false -> key <> EmptyString /\ b = false.
Proof.
  intros H. apply orb_false_iff in H as [Hk Hb].
  split; [now apply String.eqb_neq | exact Hb].
Qed.

(** X5. Every entry [tailwind] returns stems from a key of the colour
    table that is not empty and not blacklisted: its slug is that key, or
    that key, a hyphen and a non-empty shade key of that base. *)
Theorem X5_slugs_come_from_the_table :
  forall (casing : Casing) (this : Plugin) (es : list ColorEntry)
         (e : ColorEntry),
    tailwind this = Ok es -> In e es ->
    exists key,
      In key (keys (tailwind_table this)) /\
      key <> EmptyString /\
      includes (blacklist (options this)) key = false /\
      (slug e = key \/
       exists o value,
         get (tailwind_table this) key = Some (Shaded o) /\
         In value (keys o) /\ value <> EmptyString /\
         slug e = (key ++ "-" ++ value)%string).
Proof.
  intros casing this es e Hes He.
  destruct (tailwind_In this es e Hes He) as [key [Hin [Hkey Hfrom]]].
  apply key_not_empty in Hkey as [Hne Hbl].
  exists key. repeat split; try assumption.
  destruct Hfrom as [[c [Hget Ht]] | [o [value [Hget [Hv [_ Ht]]]]]].
  - left. unfold transform in Ht. injection Ht as <-. reflexivity.
  - destruct (transform_shade_cases this key value o e Hget Hv Ht)
      as [[_ ->] | [[_ [_ [c [_ ->]]]] | [Hne' [_ [c [_ ->]]]]]].
    + now left.
    + now left.
    + right. exists o, value. repeat split; assumption.
Qed.

(** X5 on the table [{blue: {500, 900}}] with all shades. *)
Lemma X5_witness :
  exists key,
    In key (keys Inputs.blueShades) /\
    key <> EmptyString /\
    includes defaultBlacklist key = false /\
    ("blue-900" = key \/
     exists o value,
       get Inputs.blueShades key = Some (Shaded o) /\
       In value (keys o) /\ value <> EmptyString /\
       "blue-900" = (key ++ "-" ++ value)%string).
Proof.
  apply (X5_slugs_come_from_the_table Sample.asciiCasing
           (plugin defaultBlacklist (ShadesBool true) Inputs.blueShades)
           [ mkEntry "Blue (500)" "blue-500" (Str "#4287f5");
             mkEntry "Blue (900)" "blue-900" (Str "#001030") ]
           (mkEntry "Blue (900)" "blue-900" (Str "#001030"))).
  - vm_compute. reflexivity.
  - right. left. reflexivity.
Defined.

(** X6. With shades off, no name carries a shade: every entry is named
    by the title of its base alone, so all the shades of one base share
    one name; and where the base has the shade [500], the slug is the base
    with [-500]. *)
Theorem X6_shades_off_names_are_bare :
  forall (casing : Casing) (this : Plugin) (es : list ColorEntry)
         (e : ColorEntry),
    truthy (shades (tailwind_options (options this))) = false ->
    tailwind this = Ok es -> In e es ->
    exists key,
      In key (keys (tailwind_table this)) /\
      name e = startCase (camelCase key) /\
      (forall o,
         get (tailwind_table this) key = Some (Shaded o) ->
         hasOwnProperty o "500" = true ->
         slug e = (key ++ "-500")%string).
Proof.
  intros casing this es e Hoff Hes He.
  destruct (tailwind_In this es e Hes He) as [key [Hin [Hkey Hfrom]]].
  exists key. split; [exact Hin |].
  destruct Hfrom as [[c [Hget Ht]] | [o [value [Hget [Hv [Hpick Ht]]]]]].
  - unfold transform in Ht. injection Ht as <-. simpl.
    split; [apply (title_plain this) | intros o Ho; congruence].
  - destruct (transform_shade_cases this key value o e Hget Hv Ht)
      as [[Hv0 ->] | [[_ [Hd [c [_ ->]]]] | [_ [_ [c [_ ->]]]]]]; simpl.
    + split; [reflexivity |]. intros o' Ho' H500.
      assert (o' = o) by congruence. subst o'.
      destruct Hpick as [[_ [_ Hv5]] | Hsel]; [congruence |].
      destruct (shades (tailwind_options (options this))) as [[|] | |];
        try discriminate. simpl in Hsel. rewrite H500 in Hsel. discriminate.
    + split; [reflexivity |]. intros o' Ho' H500.
      assert (o' = o) by congruence. subst o'.
      destruct Hpick as [[_ [_ Hv5]] | Hsel].
      * subst value. discriminate Hd.
      * destruct (shades (tailwind_options (options this))) as [[|] | |];
          try discriminate. simpl in Hsel. rewrite H500 in Hsel. discriminate.
    + rewrite Hoff. split; [reflexivity |]. intros o' Ho' H500.
      assert (o' = o) by congruence. subst o'.
      destruct Hpick as [[_ [_ Hv5]] | Hsel]; [now subst value |].
      destruct (shades (tailwind_options (options this))) as [[|] | |];
        try discriminate. simpl in Hsel. rewrite H500 in Hsel. discriminate.
Qed.

(** X6 on a base without [500]: both shades are named [Blue]. *)
Lemma X6_witness :
  exists key,
    In key (keys Inputs.noDefaultShade) /\
    "Blue" = startCase (Casing := Sample.asciiCasing)
               (camelCase (Casing := Sample.asciiCasing) key) /\
    (forall o,
       get Inputs.noDefaultShade key = Some (Shaded o) ->
       hasOwnProperty o "500" = true ->
       "blue-900" = (key ++ "-500")%string).
Proof.
  apply (X6_shades_off_names_are_bare Sample.asciiCasing
           (plugin defaultBlacklist (ShadesBool false) Inputs.noDefaultShade)
           [ mkEntry "Blue" "blue-400" (Str "#abc");
             mkEntry "Blue" "blue-900" (Str "#001030") ]
           (mkEntry "Blue" "blue-900" (Str "#001030"))).
  - reflexivity.
  - vm_compute. reflexivity.
  - right. left. reflexivity.
Defined.

(** X7. The colour of every entry [tailwind] returns is a string of the
    colour table, provided no base has a shade whose key is the empty
    string; for such a key [transform] takes the whole shade object as the
    colour. *)
Theorem X7_colours_are_table_strings :
  forall (casing : Casing) (this : Plugin) (es : list ColorEntry)
         (e : ColorEntry),
    (forall key o,
       get (tailwind_table this) key = Some (Shaded o) ->
       ~ In EmptyString (keys o)) ->
    tailwind this = Ok es -> In e es ->
    exists key c,
      color e = Str c /\
      (get (tailwind_table this) key = Some (Plain c) \/
       exists o value,
         get (tailwind_table this) key = Some (Shaded o) /\
         get o value = Some c).
Proof.
  intros casing this es e Hwf Hes He.
  destruct (tailwind_In this es e Hes He) as [key [Hin [Hkey Hfrom]]].
  exists key.
  destruct Hfrom as [[c [Hget Ht]] | [o [value [Hget [Hv [_ Ht]]]]]].
  - exists c. unfold transform, tableAt in Ht. rewrite Hget in Ht.
    injection Ht as <-. split; [reflexivity | now left].
  - destruct (transform_shade_cases this key value o e Hget Hv Ht)
      as [[Hv0 ->] | [[_ [_ [c [Hc ->]]]] | [_ [_ [c [Hc ->]]]]]].
    + subst value. exfalso. exact (Hwf key o Hget Hv).
    + exists c. split; [reflexivity |]. right. eauto.
    + exists c. split; [reflexivity |]. right. eauto.
Qed.

(** X7 on the default-shade table. *)
Lemma X7_witness :
  exists key c,
    Str "#246" = Str c /\
    (get Inputs.withDefault key = Some (Plain c) \/
     exists o value,
       get Inputs.withDefault key = Some (Shaded o) /\ get o value = Some c).
Proof.
  apply (X7_colours_are_table_strings Sample.asciiCasing
           (plugin defaultBlacklist (ShadesBool true) Inputs.withDefault)
           [ mkEntry "Blue (50)" "blue-50" (Str "#eef");
             mkEntry "Blue" "blue" (Str "#246") ]
           (mkEntry "Blue" "blue" (Str "#246"))).
  - intros key o. simpl.
    destruct (String.eqb key "blue"); [| discriminate].
    intros [= <-]. simpl. intuition discriminate.
  - vm_compute. reflexivity.
  - right. left. reflexivity.
Defined.

(** The other branch of X7: the entry of a shade with an empty key. *)
Example empty_shade_key_takes_the_object :
  tailwind (casing := Sample.asciiCasing)
    (plugin defaultBlacklist (ShadesBool true)
       [("blue", Shaded [(EmptyString, "#123")])])
  = Ok [ mkEntry "Blue" "blue" (Obj [(EmptyString, "#123")]) ].
Proof. vm_compute. reflexivity. Qed.

(** ** Names under the shade policies *)

Section TitleFacts.
Context {casing : Casing}.
Variable this : Plugin.

Lemma title_parenthesised (key value : string) :
  isObject (shades (tailwind_options (options this))) = false ->
  value <> EmptyString ->
  title this key (Some value)
  = (startCase (camelCase key) ++ " (" ++ startCase (camelCase value) ++ ")")%string.
Proof.
  intros Hobj Hne. unfold title, titleBody. rewrite Hobj, andb_false_r.
  simpl. destruct value as [|ch rest]; [contradiction |].
  simpl. now rewrite append_empty.
Qed.

Lemma title_labelled (key value label : string)
    (labels : list (string * string)) :
  shades (tailwind_options (options this)) = ShadesObject labels ->
  get labels value = Some label ->
  value <> EmptyString ->
  title this key (Some value)
  = trim (label ++ " " ++ startCase (camelCase key)).
Proof.
  intros Hsh Hlabel Hne. unfold title, titleBody. rewrite Hsh. simpl.
  assert (Hhas : hasOwnProperty labels value = true).
  { apply includes_In. eapply get_In_keys. exact Hlabel. }
  rewrite Hhas, Hlabel. destruct value as [|ch rest]; [contradiction |].
  reflexivity.
Qed.
End TitleFacts.

(** X8. With [shades: true], a base whose shade keys are not empty and
    not [default] gives one entry per shade key, in the order of the keys,
    none left out: the name is the title of the base followed by the title
    of the shade in parentheses, the slug is base, hyphen, shade, and the
    colour is the one stored under the shade. *)
Theorem X8_all_shades_in_key_order :
  forall (casing : Casing) (this : Plugin) (key : string)
         (o : list (string * string)),
    shades (tailwind_options (options this)) = ShadesBool true ->
    (String.eqb key EmptyString || includes (blacklist (options this)) key)
      = false ->
    get (tailwind_table this) key = Some (Shaded o) ->
    (forall value, In value (keys o) ->
       value <> EmptyString /\ toLowerCase value <> "default") ->
    resolve this key
    = Ok (Many (map (fun value =>
                       mkEntry (startCase (camelCase key) ++ " ("
                                  ++ startCase (camelCase value) ++ ")")
                         (key ++ "-" ++ value)
                         (match get o value with
                          | Some c => Str c
                          | None => Undefined
                          end))
                  (keys o))).
Proof.
  intros casing this key o Hsh Hkey Hget Hkeys.
  unfold resolve. rewrite Hkey, Hget, Hsh.
  cbn [truthy negb andb isArray isObject].
  rewrite (mapM_pure _
             (fun value =>
                mkEntry (startCase (camelCase key) ++ " ("
                           ++ startCase (camelCase value) ++ ")")
                  (key ++ "-" ++ value)
                  (match get o value with
                   | Some c => Str c
                   | None => Undefined
                   end))).
  - reflexivity.
  - intros value Hv. destruct (Hkeys value Hv) as [Hne Hnd].
    destruct (keys_get _ _ Hv) as [c Hc].
    assert (Ht : exists e, transform this key (Some value) false = Ok e)
      by (eapply transform_shaded; exact Hget).
    destruct Ht as [e Ht]. cbv beta. rewrite Ht. f_equal.
    destruct (transform_shade_cases this key value o e Hget Hv Ht)
      as [[Hv0 _] | [[_ [Hd _]] | [_ [_ [c' [Hc' ->]]]]]];
      [contradiction | contradiction |].
    rewrite Hsh, Hc'. cbn [truthy].
    rewrite title_parenthesised; [reflexivity | now rewrite Hsh | exact Hne].
Qed.

(** X8 on the table [{blue: {500, 900}}]. *)
Lemma X8_witness :
  resolve (casing := Sample.asciiCasing)
    (plugin defaultBlacklist (ShadesBool true) Inputs.blueShades) "blue"
  = Ok (Many [ mkEntry "Blue (500)" "blue-500" (Str "#4287f5");
               mkEntry "Blue (900)" "blue-900" (Str "#001030") ]).
Proof.
  apply (X8_all_shades_in_key_order Sample.asciiCasing
           (plugin defaultBlacklist (ShadesBool true) Inputs.blueShades)
           "blue" [("500", "#4287f5"); ("900", "#001030")]);
    try reflexivity.
  intros value [<- | [<- | []]]; split; discriminate.
Defined.

(** X9. Under a label object, every entry [tailwind] returns is named
    either by the title of its base alone (a colour without shades, or a
    shade key that is empty or [default]) or by the label of its shade
    followed by the title of the base, trimmed; only shade keys that have
    a label are emitted. *)
Theorem X9_label_object_names :
  forall (casing : Casing) (this : Plugin) (labels : list (string * string))
         (es : list ColorEntry) (e : ColorEntry),
    shades (tailwind_options (options this)) = ShadesObject labels ->
    tailwind this = Ok es -> In e es ->
    exists key,
      In key (keys (tailwind_table this)) /\
      ((name e = startCase (camelCase key) /\ slug e = key) \/
       exists value label,
         get labels value = Some label /\
         name e = trim (label ++ " " ++ startCase (camelCase key)) /\
         slug e = (key ++ "-" ++ value)%string).
Proof.
  intros casing this labels es e Hsh Hes He.
  destruct (tailwind_In this es e Hes He) as [key [Hin [Hkey Hfrom]]].
  exists key. split; [exact Hin |].
  destruct Hfrom as [[c [Hget Ht]] | [o [value [Hget [Hv [Hpick Ht]]]]]].
  - left. unfold transform in Ht. injection Ht as <-. simpl.
    split; [apply (title_plain this) | reflexivity].
  - destruct (transform_shade_cases this key value o e Hget Hv Ht)
      as [[_ ->] | [[_ [_ [c [_ ->]]]] | [Hne [_ [c [_ ->]]]]]].
    + left. split; reflexivity.
    + left. split; reflexivity.
    + right. rewrite Hsh in Hpick. simpl in Hpick.
      destruct Hpick as [[Hf _] | Hsel]; [discriminate |].
      apply includes_In in Hsel. destruct (keys_get _ _ Hsel) as [label Hl].
      exists value, label. rewrite Hsh. simpl.
      split; [exact Hl |]. split; [| reflexivity].
      now apply title_labelled with (labels := labels).
Qed.

(** X9 with the label [Base] for the shade [500]. *)
Lemma X9_witness :
  exists key,
    In key (keys Inputs.blueShades) /\
    (("Base Blue" = startCase (Casing := Sample.asciiCasing)
                      (camelCase (Casing := Sample.asciiCasing) key)
      /\ "blue-500" = key) \/
     exists value label,
       get [("500", "Base")] value = Some label /\
       "Base Blue"
       = trim (label ++ " "
                 ++ startCase (Casing := Sample.asciiCasing)
                      (camelCase (Casing := Sample.asciiCasing) key)) /\
       "blue-500" = (key ++ "-" ++ value)%string).
Proof.
  apply (X9_label_object_names Sample.asciiCasing
           (plugin defaultBlacklist (ShadesObject [("500", "Base")])
              Inputs.blueShades)
           [("500", "Base")]
           [ mkEntry "Base Blue" "blue-500" (Str "#4287f5") ]
           (mkEntry "Base Blue" "blue-500" (Str "#4287f5"))).
  - reflexivity.
  - vm_compute. reflexivity.
  - left. reflexivity.
Defined.

(** ** The constructor: priority and merged options *)

Lemma prefix_append (sub s : string) :
  String.prefix sub s = true <-> exists post, s = (sub ++ post)%string.
Proof.
  revert s. induction sub as [|a sub IH]; intros s.
  - destruct s; simpl; split; eauto.
  - destruct s as [|b s]; simpl.
    + split; [discriminate | intros [post H]; discriminate].
    + destruct (Ascii.ascii_dec a b) as [<- | Hne].
      * rewrite IH. split; intros [post H]; exists post; congruence.
      * split; [discriminate | intros [post H]; congruence].
Qed.

Lemma stringIncludes_spec (s sub : string) :
  Glue.stringIncludes s sub = true
  <-> exists pre post, s = (pre ++ sub ++ post)%string.
Proof.
  induction s as [|c s IH]; cbn [Glue.stringIncludes].
  - rewrite orb_false_r, prefix_append. split.
    + intros [post H]. exists EmptyString, post. exact H.
    + intros [[|a pre] [post H]]; [eauto | discriminate].
  - rewrite orb_true_iff, prefix_append, IH. split.
    + intros [[post H] | [pre [post H]]].
      * exists EmptyString, post. exact H.
      * exists (String c pre), post. simpl. now rewrite H.
    + intros [[|a pre] [post H]].
      * left. eauto.
      * right. simpl in H. injection H as _ H. eauto.
Qed.

(** X10. [priority] is searched for the substring [tailwind]: when it
    occurs anywhere in the option, the Tailwind entries are passed to
    [build] first and win every name they share with Sass; for any other
    value, the empty string and other spellings included, the Sass
    entries go first. *)
Theorem X10_priority_is_a_substring_test :
  forall (parser : D3.Parser) (hp : heap) (priority : string)
         (fromTailwind : list loc) (fromSass : option (list loc)),
    ((exists pre post, priority = (pre ++ "tailwind" ++ post)%string) ->
     Glue.palette hp priority fromTailwind fromSass
     = build hp [Some fromTailwind; fromSass]) /\
    ((forall pre post, priority <> (pre ++ "tailwind" ++ post)%string) ->
     Glue.palette hp priority fromTailwind fromSass
     = build hp [fromSass; Some fromTailwind]).
Proof.
  intros parser hp priority fromTailwind fromSass. unfold Glue.palette.
  split.
  - intros H. apply stringIncludes_spec in H. now rewrite H.
  - intros H.
    destruct (Glue.stringIncludes priority "tailwind") eqn:E; [| reflexivity].
    apply stringIncludes_spec in E as [pre [post E]].
    exfalso. exact (H pre post E).
Qed.

Example priority_samples :
  Glue.stringIncludes "tailwind" "tailwind" = true /\
  Glue.stringIncludes "sass, not tailwind" "tailwind" = true /\
  Glue.stringIncludes "Tailwind" "tailwind" = false /\
  Glue.stringIncludes "sass" "tailwind" = false.
Proof. repeat split; reflexivity. Qed.

Lemma mergeArray_skipn (object source : list string) :
  Glue.mergeArray object source
  = source ++ skipn (List.length source) object.
Proof.
  revert source. induction object as [|a object IH]; intros [|x source]; simpl;
    try reflexivity.
  - now rewrite app_nil_r.
  - now rewrite IH.
Qed.

(** X11. The user's blacklist does not replace the default one, it is
    merged into it index by index: the merged blacklist is the user's
    entries followed by the default entries at the positions the user
    left free. One entry leaves [inherit] blacklisted and frees
    [transparent]; two or more entries replace the default. *)
Theorem X11_blacklist_is_merged_by_index :
  forall (user : list string),
    Glue.mergedBlacklist (Some user)
    = user ++ skipn (List.length user) defaultBlacklist /\
    (forall x, user = [x] ->
       Glue.mergedBlacklist (Some user) = [x; "inherit"]) /\
    (2 <= List.length user -> Glue.mergedBlacklist (Some user) = user).
Proof.
  intros user. unfold Glue.mergedBlacklist. rewrite mergeArray_skipn.
  split; [reflexivity |]. split.
  - intros x ->. reflexivity.
  - intros H. destruct user as [|a [|b user]]; simpl in H; try lia.
    simpl. rewrite skipn_nil. now rewrite app_nil_r.
Qed.

(** ** The Sass source *)

Lemma endsWith_slash (p : string) :
  p <> EmptyString -> p <> "/" -> Glue.endsWith "/" p = false.
Proof.
  intros Hne Hslash. unfold Glue.endsWith.
  destruct p as [|a [|b p]]; [contradiction | | reflexivity].
  change (String.eqb "/" (String a EmptyString) = false).
  apply String.eqb_neq. congruence.
Qed.

(** X12. The directory of the Sass files always gets a slash appended,
    also when [options.sass.path] already ends in one (only the path [/]
    itself is left alone), and the file looked up is that directory
    followed by [options.sass.files] printed as one string: the names of
    an array joined by commas. *)
Theorem X12_sass_candidate_path :
  forall (so : Glue.SassOptions) (p : string) (file : Glue.Strings),
    Glue.path so = Some p -> p <> EmptyString -> p <> "/" ->
    Glue.sassPaths so = Some (p ++ "/")%string /\
    Glue.sassCandidate so file
    = ((p ++ "/") ++ Glue.stringsToString file)%string /\
    (forall l, Glue.stringsToString (Glue.ManyStrings l) = String.concat "," l).
Proof.
  intros so p file Hp Hne Hslash.
  assert (E : Glue.sassPaths so = Some (p ++ "/")%string).
  { unfold Glue.sassPaths. rewrite Hp.
    destruct p as [|a p']; [contradiction |].
    now rewrite (endsWith_slash (String a p') Hne Hslash). }
  split; [exact E |]. split; [| reflexivity].
  unfold Glue.sassCandidate. now rewrite E.
Qed.

(** X12 on a path given with its slash and two files. *)
Lemma X12_witness :
  Glue.sassPaths
    {| Glue.path := Some "styles/";
       Glue.files := Some (Glue.ManyStrings ["a.scss"; "b.scss"]);
       Glue.variables := Glue.ManyStrings ["colors"] |}
  = Some "styles//" /\
  Glue.sassCandidate
    {| Glue.path := Some "styles/";
       Glue.files := Some (Glue.ManyStrings ["a.scss"; "b.scss"]);
       Glue.variables := Glue.ManyStrings ["colors"] |}
    (Glue.ManyStrings ["a.scss"; "b.scss"])
  = "styles//a.scss,b.scss".
Proof.
  destruct (X12_sass_candidate_path
              {| Glue.path := Some "styles/";
                 Glue.files := Some (Glue.ManyStrings ["a.scss"; "b.scss"]);
                 Glue.variables := Glue.ManyStrings ["colors"] |}
              "styles/" (Glue.ManyStrings ["a.scss"; "b.scss"]))
    as [Hpaths [Hcand _]]; try reflexivity; try discriminate.
  split; [exact Hpaths | exact Hcand].
Defined.

Section SassFacts.
Context {world : Glue.World} {casing : Casing}.
Variable this : Plugin.

Lemma transform_sass (key value : string) :
  transform this key (Some value) true
  = Ok (mkEntry (startCase (camelCase key)) key (Str value)).
Proof. unfold transform. now rewrite title_plain. Qed.

Lemma sass_closed (so : Glue.SassOptions) (file : Glue.Strings)
    (d : Glue.Declaration) (ds : list Glue.Declaration) :
  Glue.files so = Some file ->
  Glue.stringsTruthy file = true ->
  Glue.getArray
    [ if Glue.existsSync (Glue.sassCandidate so file)
      then Some (Glue.sassCandidate so file)
      else None ] = Ok (d :: ds) ->
  Glue.sass this (Some so)
  = Ok (Some
          (flat_map
             (fun key =>
                map (fun item =>
                       mkEntry (startCase (camelCase (Glue.itemName item)))
                         (Glue.itemName item)
                         (Str (Glue.compiledValue item)))
                  (match Glue.mapValue key with
                   | Some items => items
                   | None => []
                   end))
             (filter (fun key => Glue.sassWanted so (Glue.declName key)
                                 && Glue.hasMap key)
                (d :: ds)))).
Proof.
  intros Hfile Htruthy Hget. unfold Glue.sass.
  rewrite Hfile, Htruthy. cbn [negb Glue.exists_ JS.bind fst Glue.existingTruthy].
  rewrite Hget. cbn [JS.bind].
  rewrite (mapM_pure _
             (fun key =>
                map (fun item =>
                       mkEntry (startCase (camelCase (Glue.itemName item)))
                         (Glue.itemName item)
                         (Str (Glue.compiledValue item)))
                  (match Glue.mapValue key with
                   | Some items => items
                   | None => []
                   end))).
  - cbn [JS.bind]. now rewrite flat_map_concat_map.
  - intros key _. apply mapM_pure. intros item _. apply transform_sass.
Qed.
End SassFacts.

(** X13. When the exporter reports at least one declaration, [sass()]
    returns, for each declaration that is a map and whose name the
    [variables] option selects, one entry per element of the map, in
    order: named by the title of the element's name, with that name as
    slug and the compiled value as colour. Neither the blacklist nor the
    shade policy nor the Tailwind colour table has a part in it. *)
Theorem X13_sass_entries :
  forall (world : Glue.World) (casing : Casing) (this : Plugin)
         (so : Glue.SassOptions) (file : Glue.Strings)
         (d : Glue.Declaration) (ds : list Glue.Declaration),
    Glue.files so = Some file ->
    Glue.stringsTruthy file = true ->
    Glue.getArray
      [ if Glue.existsSync (Glue.sassCandidate so file)
        then Some (Glue.sassCandidate so file)
        else None ] = Ok (d :: ds) ->
    Glue.sass this (Some so)
    = Ok (Some
            (flat_map
               (fun key =>
                  map (fun item =>
                         mkEntry (startCase (camelCase (Glue.itemName item)))
                           (Glue.itemName item)
                           (Str (Glue.compiledValue item)))
                    (match Glue.mapValue key with
                     | Some items => items
                     | None => []
                     end))
               (filter (fun key => Glue.sassWanted so (Glue.declName key)
                                   && Glue.hasMap key)
                  (d :: ds)))).
Proof.
  intros world casing this so file d ds Hfile Htruthy Hget.
  exact (sass_closed this so file d ds Hfile Htruthy Hget).
Qed.

(** X13 on the README's Sass file, with a blacklist that names one of its
    colours: the Sass entries are those of the README all the same. *)
Lemma X13_witness :
  Glue.sass (world := SampleWorld.world) (casing := Sample.asciiCasing)
    (plugin ["black"; "white"] (ShadesBool true) Inputs.blueShades)
    (Some SampleWorld.defaultSass)
  = Ok (Some Sample.readme).
Proof.
  rewrite (X13_sass_entries SampleWorld.world Sample.asciiCasing
             (plugin ["black"; "white"] (ShadesBool true) Inputs.blueShades)
             SampleWorld.defaultSass (Glue.ManyStrings ["variables.scss"])
             {| Glue.declName := "$black"; Glue.mapValue := None |}
             (tl SampleWorld.declarations));
    reflexivity.
Defined.

(** X14. When [options.sass.variables] is an array whose first name is
    written with its [$], no declaration is selected: whatever the
    exporter reports, [sass()] returns no entry. *)
Theorem X14_dollar_in_array_selects_nothing :
  forall (world : Glue.World) (casing : Casing) (this : Plugin)
         (so : Glue.SassOptions) (v : string) (rest : list string)
         (e : ColorEntry) (es : list ColorEntry),
    Glue.variables so = Glue.ManyStrings (("$" ++ v)%string :: rest) ->
    Glue.sass this (Some so) <> Ok (Some (e :: es)).
Proof.
  intros world casing this so v rest e es Hvars.
  assert (Hw : forall n, Glue.sassWanted so n = false).
  { intros n. unfold Glue.sassWanted. rewrite Hvars.
    assert (Hd : forall w, Glue.startsWith (String "$" w) "$" = true)
      by (intros w; destruct w; reflexivity).
    destruct rest; cbn [String.concat String.append]; now rewrite Hd. }
  unfold Glue.sass.
  destruct (Glue.files so) as [file |]; [| discriminate].
  destruct (negb (Glue.stringsTruthy file)); [discriminate |].
  cbn [Glue.exists_ JS.bind fst Glue.existingTruthy].
  match goal with
  | |- context [Glue.getArray ?inputs] =>
      destruct (Glue.getArray inputs) as [[|d ds] | err]
  end; cbn [JS.bind]; try discriminate.
  rewrite (filter_none _ (d :: ds)).
  - simpl. discriminate.
  - intros key _. now rewrite Hw.
Qed.

(** X14 on the README's file with [variables: ['$colors']]: the entries
    of the README are not returned. *)
Lemma X14_witness :
  Glue.sass (world := SampleWorld.world) (casing := Sample.asciiCasing)
    (plugin defaultBlacklist (ShadesBool false) [])
    (Some {| Glue.path := Some "resources/assets/styles/config";
             Glue.files := Some (Glue.ManyStrings ["variables.scss"]);
             Glue.variables := Glue.ManyStrings ["$colors"] |})
  <> Ok (Some Sample.readme).
Proof.
  apply (X14_dollar_in_array_selects_nothing SampleWorld.world
           Sample.asciiCasing (plugin defaultBlacklist (ShadesBool false) [])
           {| Glue.path := Some "resources/assets/styles/config";
              Glue.files := Some (Glue.ManyStrings ["variables.scss"]);
              Glue.variables := Glue.ManyStrings ["$colors"] |}
           "colors" []).
  reflexivity.
Defined.

Lemma length_append (a b : string) :
  String.length (a ++ b) = String.length a + String.length b.
Proof. induction a as [|c a IH]; simpl; [reflexivity | now rewrite IH]. Qed.

Lemma length_concat_In (x : string) (l : list string) :
  In x l -> 2 <= List.length l ->
  String.length x < String.length (String.concat "," l).
Proof.
  induction l as [|y l IH]; [intros [] |].
  intros Hin Hlen. destruct l as [|z l]; [simpl in Hlen; lia |].
  change (String.concat "," (y :: z :: l))
    with (y ++ "," ++ String.concat "," (z :: l))%string.
  rewrite !length_append. change (String.length ",") with 1.
  destruct Hin as [<- | Hin]; [lia |].
  destruct l as [|w l].
  - destruct Hin as [<- | []]. simpl. lia.
  - assert (H : String.length x
                < String.length (String.concat "," (z :: w :: l)))
      by (apply IH; [exact Hin | simpl; lia]).
    lia.
Qed.

(** X15. When [options.sass.variables] lists two or more names, the
    declaration names are compared with all of them printed as one string,
    joined by commas: a declaration that carries one of the listed names,
    with or without [$], is not selected. *)
Theorem X15_several_variables_select_none_of_them :
  forall (so : Glue.SassOptions) (l : list string) (x : string),
    Glue.variables so = Glue.ManyStrings l ->
    2 <= List.length l ->
    In x l ->
    Glue.sassWanted so x = false /\
    Glue.sassWanted so ("$" ++ x) = false.
Proof.
  intros so l x Hvars Hlen Hin. unfold Glue.sassWanted. rewrite Hvars.
  pose proof (length_concat_In x l Hin Hlen) as Hlt.
  destruct (Glue.startsWith (String.concat "," l) "$"); [now split |].
  split; apply String.eqb_neq; intros E;
    apply (f_equal String.length) in E;
    rewrite ?length_append in E; simpl in E; lia.
Qed.

(** X15 on [variables: ['colors', 'brand']]. *)
Lemma X15_witness :
  Glue.sassWanted
    {| Glue.path := None; Glue.files := None;
       Glue.variables := Glue.ManyStrings ["colors"; "brand"] |}
    "colors" = false /\
  Glue.sassWanted
    {| Glue.path := None; Glue.files := None;
       Glue.variables := Glue.ManyStrings ["colors"; "brand"] |}
    "$colors" = false.
Proof.
  apply (X15_several_variables_select_none_of_them
           {| Glue.path := None; Glue.files := None;
              Glue.variables := Glue.ManyStrings ["colors"; "brand"] |}
           ["colors"; "brand"] "colors").
  - reflexivity.
  - simpl. lia.
  - left. reflexivity.
Defined.

(** ** The pattern of [build], read as a set of strings *)

Lemma stripPrefix_spec (p s rest : string) :
  Notation.stripPrefix p s = Some rest
  <-> exists pre, s = (pre ++ rest)%string /\ toLowerCase pre = p.
Proof.
  revert s. induction p as [|a p IH]; intros s.
  - simpl. split.
    + intros [= <-]. exists EmptyString. split; reflexivity.
    + intros [[|c pre] [-> H]]; [reflexivity | discriminate].
  - destruct s as [|c s]; simpl.
    + split; [discriminate |].
      intros [[|c pre] [H1 H2]]; discriminate.
    + destruct (Ascii.eqb_spec a (lowerChar c)) as [-> | Hne].
      * rewrite IH. split.
        -- intros [pre [-> H]]. exists (String c pre). split; [reflexivity |].
           simpl. now rewrite H.
        -- intros [[|c' pre] [H1 H2]]; [discriminate |].
           simpl in H1, H2. injection H1 as Hc Hs. injection H2 as _ H2.
           subst. exists pre. split; [reflexivity | reflexivity].
      * split; [discriminate |].
        intros [[|c' pre] [H1 H2]]; [discriminate |].
        simpl in H1, H2. injection H1 as Hc Hs. injection H2 as H2 _.
        congruence.
Qed.

Lemma closes_spec (s : string) :
  Notation.closes s = true
  <-> exists body, s = (body ++ ")")%string /\ noLineTerminator body = true.
Proof.
  induction s as [|c s IH].
  - simpl. split; [discriminate |]. intros [[|d body] [H _]]; discriminate.
  - destruct s as [|d s].
    + simpl. split.
      * intros H. apply Ascii.eqb_eq in H. subst c.
        exists EmptyString. split; reflexivity.
      * intros [[|e body] [H _]].
        -- simpl in H. injection H as ->. apply Ascii.eqb_refl.
        -- simpl in H. injection H as _ H. destruct body; discriminate.
    + change (Notation.closes (String c (String d s)))
        with (negb (isLineTerminator c) && Notation.closes (String d s)).
      rewrite andb_true_iff, IH. split.
      * intros [Hc [body [Hs Hb]]]. exists (String c body).
        split; [simpl; now rewrite Hs | simpl; now rewrite Hc, Hb].
      * intros [[|e body] [H Hb]]; [discriminate |].
        simpl in H. injection H as <- H. simpl in Hb.
        apply andb_true_iff in Hb as [Hc Hb].
        split; [exact Hc |]. exists body. split; assumption.
Qed.

Lemma call_cons (a c : ascii) (s : string) :
  Notation.call (String a (String c s))
  = Ascii.eqb a "(" && (negb (isLineTerminator c) && Notation.closes s).
Proof.
  destruct a as [[] [] [] [] [] [] [] []]; reflexivity.
Qed.

Lemma call_short (a : ascii) : Notation.call (String a EmptyString) = false.
Proof.
  destruct a as [[] [] [] [] [] [] [] []]; reflexivity.
Qed.

Lemma call_spec (s : string) :
  Notation.call s = true
  <-> exists body,
        s = ("(" ++ body ++ ")")%string /\ body <> EmptyString /\
        noLineTerminator body = true.
Proof.
  destruct s as [|a [|c s]].
  - simpl. split; [discriminate | intros [body [H _]]; discriminate].
  - rewrite call_short. split; [discriminate |].
    intros [[|d body] [H [Hne _]]]; [contradiction |].
    simpl in H. injection H as _ H. destruct body; discriminate.
  - rewrite call_cons, !andb_true_iff, closes_spec, Ascii.eqb_eq. split.
    + intros [-> [Hc [body [-> Hb]]]]. exists (String c body).
      split; [reflexivity |]. split; [discriminate |].
      simpl. now rewrite Hc, Hb.
    + intros [[|d body] [H [Hne Hb]]]; [contradiction |].
      simpl in H. injection H as -> -> ->. simpl in Hb.
      apply andb_true_iff in Hb as [Hd Hb].
      split; [reflexivity |]. split; [exact Hd |].
      exists body. split; [reflexivity | exact Hb].
Qed.

Lemma alphaCall_spec (s : string) :
  Notation.alphaCall s = true
  <-> exists alpha body,
        s = (alpha ++ "(" ++ body ++ ")")%string /\
        (alpha = EmptyString \/ toLowerCase alpha = "a") /\
        body <> EmptyString /\ noLineTerminator body = true.
Proof.
  destruct s as [|c s].
  - simpl. split; [discriminate |].
    intros [[|a alpha] [body [H _]]]; discriminate.
  - cbn [Notation.alphaCall].
    destruct (Ascii.eqb_spec "a" (lowerChar c)) as [Ha | Ha].
    + rewrite call_spec. split.
      * intros [body [-> [Hne Hb]]].
        exists (String c EmptyString), body.
        split; [reflexivity |]. split; [| split; assumption].
        right. simpl. now rewrite <- Ha.
      * intros [[|a alpha] [body [H [Halpha [Hne Hb]]]]].
        -- simpl in H. injection H as -> _. discriminate Ha.
        -- destruct Halpha as [Halpha | Halpha]; [discriminate |].
           destruct alpha; [| discriminate].
           simpl in H. injection H as _ ->.
           exists body. split; [reflexivity | split; assumption].
    + rewrite call_spec. split.
      * intros [body [H [Hne Hb]]]. exists EmptyString, body.
        split; [exact H |]. split; [now left | split; assumption].
      * intros [[|a alpha] [body [H [Halpha [Hne Hb]]]]].
        -- exists body. split; [exact H | split; assumption].
        -- destruct Halpha as [Halpha | Halpha]; [discriminate |].
           simpl in H, Halpha. injection H as <- _.
           injection Halpha as Hc _. congruence.
Qed.

Lemma toLowerCase_append (a b : string) :
  toLowerCase (a ++ b) = (toLowerCase a ++ toLowerCase b)%string.
Proof. induction a as [|c a IH]; simpl; [reflexivity | now rewrite IH]. Qed.

Lemma append_assoc (a b c : string) :
  ((a ++ b) ++ c = a ++ (b ++ c))%string.
Proof. induction a as [|x a IH]; simpl; [reflexivity | now rewrite IH]. Qed.

Lemma toLowerCase_split (name p q : string) :
  toLowerCase name = (p ++ q)%string ->
  exists pre post,
    name = (pre ++ post)%string /\ toLowerCase pre = p /\ toLowerCase post = q.
Proof.
  revert name. induction p as [|a p IH]; intros name H.
  - exists EmptyString, name. repeat split. exact H.
  - destruct name as [|c name]; [discriminate |].
    simpl in H. injection H as Hc H.
    destruct (IH name H) as [pre [post [-> [Hp Hq]]]].
    exists (String c pre), post. simpl. rewrite Hp, Hc. repeat split. exact Hq.
Qed.

(** X16. The pattern that sends a rejected colour to the non-standard
    bucket accepts exactly the strings made of one of the names [rgb],
    [rgba], [hsl], [hsla] in any mix of cases, an opening parenthesis, at
    least one character without any line break, and a closing parenthesis
    that ends the string; nothing may come before the name or after the
    last parenthesis. *)
Theorem X16_notation_pattern :
  forall s : string,
    Notation.test s = true <->
    exists name body,
      s = (name ++ "(" ++ body ++ ")")%string /\
      In (toLowerCase name) ["rgb"; "rgba"; "hsl"; "hsla"] /\
      body <> EmptyString /\
      noLineTerminator body = true.
Proof.
  intros s. unfold Notation.test. split.
  - assert (Hcase : forall p rest,
              Notation.stripPrefix p s = Some rest ->
              Notation.alphaCall rest = true ->
              exists name body,
                s = (name ++ "(" ++ body ++ ")")%string /\
                (toLowerCase name = p \/ toLowerCase name = (p ++ "a")%string) /\
                body <> EmptyString /\ noLineTerminator body = true).
    { intros p rest Hs Ha.
      apply stripPrefix_spec in Hs as [pre [-> Hpre]].
      apply alphaCall_spec in Ha as [alpha [body [-> [Halpha [Hne Hb]]]]].
      exists (pre ++ alpha)%string, body.
      split; [now rewrite append_assoc |]. split; [| split; assumption].
      rewrite toLowerCase_append, Hpre.
      destruct Halpha as [-> | ->]; [left | right]; [| reflexivity].
      simpl. apply append_empty. }
    destruct (Notation.stripPrefix "rgb" s) as [rest |] eqn:Ergb.
    + intros Ha. destruct (Hcase _ _ Ergb Ha) as [name [body [Hs [Hn Hb]]]].
      exists name, body. split; [exact Hs |]. split; [| exact Hb].
      destruct Hn as [-> | ->]; simpl; tauto.
    + destruct (Notation.stripPrefix "hsl" s) as [rest |] eqn:Ehsl;
        [| discriminate].
      intros Ha. destruct (Hcase _ _ Ehsl Ha) as [name [body [Hs [Hn Hb]]]].
      exists name, body. split; [exact Hs |]. split; [| exact Hb].
      destruct Hn as [-> | ->]; simpl; tauto.
  - intros [name [body [Hs [Hname [Hne Hb]]]]].
    assert (Hstrip : forall p q,
              toLowerCase name = (p ++ q)%string ->
              (q = EmptyString \/ q = "a") ->
              exists rest,
                Notation.stripPrefix p s = Some rest /\
                Notation.alphaCall rest = true).
    { intros p q Hpq Hq.
      destruct (toLowerCase_split name p q Hpq) as [pre [post [Hn [Hp Hpost]]]].
      exists (post ++ "(" ++ body ++ ")")%string. split.
      - apply stripPrefix_spec. exists pre. split; [| exact Hp].
        rewrite Hs, Hn. apply append_assoc.
      - apply alphaCall_spec. exists post, body.
        split; [reflexivity |]. split; [| split; assumption].
        destruct Hq as [-> | ->]; [left | right; exact Hpost].
        destruct post; [reflexivity | discriminate]. }
    assert (Hnot : forall p q rest,
              toLowerCase name = (String "h" p)%string ->
              Notation.stripPrefix (String "r" q) s = Some rest -> False).
    { intros p q rest Hn Hr.
      apply stripPrefix_spec in Hr as [pre [Hpre Hlow]].
      apply (f_equal toLowerCase) in Hpre.
      rewrite Hs, !toLowerCase_append, Hn, Hlow in Hpre.
      simpl in Hpre. discriminate. }
    destruct Hname as [Hn | [Hn | [Hn | [Hn | []]]]].
    + destruct (Hstrip "rgb" EmptyString) as [rest [Hr Ha]];
        [now rewrite <- Hn | now left |].
      now rewrite Hr.
    + destruct (Hstrip "rgb" "a") as [rest [Hr Ha]];
        [now rewrite <- Hn | now right |].
      now rewrite Hr.
    + destruct (Notation.stripPrefix "rgb" s) as [rest |] eqn:Ergb.
      { exfalso. eapply Hnot; [symmetry; exact Hn | exact Ergb]. }
      destruct (Hstrip "hsl" EmptyString) as [rest [Hr Ha]];
        [now rewrite <- Hn | now left |].
      now rewrite Hr.
    + destruct (Notation.stripPrefix "rgb" s) as [rest |] eqn:Ergb.
      { exfalso. eapply Hnot; [symmetry; exact Hn | exact Ergb]. }
      destruct (Hstrip "hsl" "a") as [rest [Hr Ha]];
        [now rewrite <- Hn | now right |].
      now rewrite Hr.
Qed.

(** ** When [tailwind] throws *)

Section Throws.
Context {casing : Casing}.
Variable this : Plugin.

Let notCallable : error := TypeError "hasOwnProperty is not a function".

(** Shades off and a shade named [hasOwnProperty]: the callback throws at
    the method call. *)
Lemma resolve_shadowed (key : string) (o : list (string * string)) :
  (String.eqb key EmptyString || includes (blacklist (options this)) key)
    = false ->
  get (tailwind_table this) key = Some (Shaded o) ->
  truthy (shades (tailwind_options (options this))) = false ->
  hasOwnProperty o "hasOwnProperty" = true ->
  resolve this key = Throw notCallable.
Proof.
  intros Hkey Hget Hsh Hown. unfold resolve.
  rewrite Hkey, Hget, Hsh. cbn [negb].
  rewrite (callHasOwnProperty_shadowed o "500" Hown). reflexivity.
Qed.

(** On a key of the table the callback throws nothing else. *)
Lemma resolve_throw_inv (key : string) (e : error) :
  In key (keys (tailwind_table this)) ->
  resolve this key = Throw e ->
  e = notCallable.
Proof.
  intros Hin Hthrow.
  destruct (truthy (shades (tailwind_options (options this)))) eqn:Hsh.
  { destruct (resolve_returns this key Hin) as [r Hr]; [now left |].
    congruence. }
  destruct (keys_get _ _ Hin) as [[c | o] Hget].
  { destruct (resolve_returns this key Hin) as [r Hr]; [| congruence].
    right. intros o Ho. congruence. }
  destruct (hasOwnProperty o "hasOwnProperty") eqn:Hown.
  - destruct (String.eqb key EmptyString
              || includes (blacklist (options this)) key) eqn:Hkey.
    + unfold resolve in Hthrow. rewrite Hkey in Hthrow. discriminate Hthrow.
    + rewrite (resolve_shadowed key o Hkey Hget Hsh Hown) in Hthrow.
      congruence.
  - destruct (resolve_returns this key Hin) as [r Hr]; [| congruence].
    right. intros o' Ho'. congruence.
Qed.

(** [arr.map(f)] throws what the first failing call throws. *)
Lemma mapM_throw {A B} (f : A -> result B) (l : list A) (x : A) (e : error) :
  (forall y e', In y l -> f y = Throw e' -> e' = e) ->
  In x l -> f x = Throw e ->
  mapM f l = Throw e.
Proof.
  induction l as [|a l IH]; intros Hall Hin Hx; [destruct Hin |].
  cbn [mapM]. destruct (f a) as [b | e'] eqn:Ha; cbn [JS.bind].
  - destruct Hin as [<- | Hin]; [congruence |].
    rewrite IH; [reflexivity | | exact Hin | exact Hx].
    intros y e' Hy. apply Hall. now right.
  - f_equal. eapply Hall; [now left | exact Ha].
Qed.

Lemma tailwind_shadowed (key : string) (o : list (string * string)) :
  In key (keys (tailwind_table this)) ->
  (String.eqb key EmptyString || includes (blacklist (options this)) key)
    = false ->
  get (tailwind_table this) key = Some (Shaded o) ->
  truthy (shades (tailwind_options (options this))) = false ->
  hasOwnProperty o "hasOwnProperty" = true ->
  tailwind this = Throw notCallable.
Proof.
  intros Hin Hkey Hget Hsh Hown. unfold tailwind.
  rewrite (mapM_throw (resolve this) _ key notCallable); [reflexivity | | |].
  - intros y e' Hy. now apply resolve_throw_inv.
  - exact Hin.
  - exact (resolve_shadowed key o Hkey Hget Hsh Hown).
Qed.
End Throws.

(** X17. [tailwind()] returns an array for every colour table when the
    shade policy is truthy, and with shades off when no shade is named
    [hasOwnProperty]: [transform] is only called with keys of the table
    and shade keys of their values, so none of its property reads meets
    [undefined]. With shades off, a base that is not skipped and has a
    shade named [hasOwnProperty] makes the call
    [this.tailwind[key].hasOwnProperty('500')] throw, and [tailwind()]
    with it, as on the table [{blue: {hasOwnProperty: "#abc"}}]. Called by
    hand with a base that the table does not have and a shade, [transform]
    throws. *)
Theorem X17_tailwind_throws_on_shadowed_method_only :
  forall (casing : Casing) (this : Plugin),
    ((truthy (shades (tailwind_options (options this))) = true
      \/ forall key o, get (tailwind_table this) key = Some (Shaded o) ->
                       hasOwnProperty o "hasOwnProperty" = false) ->
     exists es, tailwind this = Ok es) /\
    (forall key o,
       In key (keys (tailwind_table this)) ->
       (String.eqb key EmptyString
        || includes (blacklist (options this)) key) = false ->
       get (tailwind_table this) key = Some (Shaded o) ->
       truthy (shades (tailwind_options (options this))) = false ->
       hasOwnProperty o "hasOwnProperty" = true ->
       tailwind this
       = Throw (TypeError "hasOwnProperty is not a function")) /\
    tailwind
      (plugin defaultBlacklist (ShadesBool false)
         [("blue", Shaded [("hasOwnProperty", "#abc")])])
    = Throw (TypeError "hasOwnProperty is not a function") /\
    (forall key value,
       get (tailwind_table this) key = None ->
       value <> EmptyString ->
       transform this key (Some value) false
       = Throw (TypeError "Cannot read properties of undefined")).
Proof.
  intros casing this.
  split; [apply tailwind_returns |].
  split; [intros key o; apply tailwind_shadowed |].
  split; [reflexivity |].
  intros key value Hget Hne. unfold transform, tableAt2. rewrite Hget.
  destruct value as [|ch rest]; [contradiction |].
  now destruct (String.eqb "default" (toLowerCase (String ch rest))).
Qed.

(** ** Colours without shades *)

Section PlainFacts.
Context {casing : Casing}.
Variable this : Plugin.

Let allowed (key : string) : bool :=
  negb (String.eqb key EmptyString
        || includes (blacklist (options this)) key).

Let entry (key : string) : ColorEntry :=
  mkEntry (startCase (camelCase key)) key (tableAt (tailwind_table this) key).

Lemma resolve_plain (key c : string) :
  get (tailwind_table this) key = Some (Plain c) ->
  resolve this key = Ok (if allowed key then One (entry key) else Nothing).
Proof.
  intros Hget. unfold resolve, allowed, entry.
  destruct (String.eqb key EmptyString
            || includes (blacklist (options this)) key); [reflexivity |].
  rewrite Hget. unfold transform. rewrite title_plain. reflexivity.
Qed.

Lemma emit_plain (ks : list string) :
  (forall key, In key ks ->
     exists c, get (tailwind_table this) key = Some (Plain c)) ->
  (rs <- mapM (resolve this) ks ;; Ok (compact (flat_map flatten rs)))
  = Ok (map entry (filter allowed ks)).
Proof.
  induction ks as [|k ks IH]; intros H; [reflexivity |].
  destruct (H k (or_introl eq_refl)) as [c Hc].
  assert (IH' := IH (fun key Hk => H key (or_intror Hk))).
  cbn [mapM]. rewrite (resolve_plain k c Hc). cbn [JS.bind].
  destruct (mapM (resolve this) ks) as [rs | err]; cbn [JS.bind] in *;
    [| discriminate].
  injection IH' as IH'. cbn [filter flat_map].
  rewrite compact_app, IH'.
  now destruct (allowed k).
Qed.
End PlainFacts.

(** X18. When every value of the colour table is a colour string,
    [tailwind()] returns one entry per key that is neither empty nor
    blacklisted, in the order of the keys, whatever the shade policy is:
    the name is the title of the key, the slug the key and the colour the
    string of the table. *)
Theorem X18_plain_colours_ignore_the_policy :
  forall (casing : Casing) (this : Plugin),
    (forall key, In key (keys (tailwind_table this)) ->
       exists c, get (tailwind_table this) key = Some (Plain c)) ->
    tailwind this
    = Ok (map (fun key =>
                 mkEntry (startCase (camelCase key)) key
                   (tableAt (tailwind_table this) key))
            (filter (fun key =>
                       negb (String.eqb key EmptyString
                             || includes (blacklist (options this)) key))
               (keys (tailwind_table this)))).
Proof.
  intros casing this H. unfold tailwind. now apply emit_plain.
Qed.

(** X18 on a table of two colours, one of them blacklisted, under a list
    policy. *)
Lemma X18_witness :
  tailwind (casing := Sample.asciiCasing)
    (plugin defaultBlacklist (ShadesArray ["500"])
       [("transparent", Plain "transparent"); ("red", Plain "#f54242")])
  = Ok [ mkEntry "Red" "red" (Str "#f54242") ].
Proof.
  rewrite (X18_plain_colours_ignore_the_policy Sample.asciiCasing
             (plugin defaultBlacklist (ShadesArray ["500"])
                [("transparent", Plain "transparent");
                 ("red", Plain "#f54242")])).
  - reflexivity.
  - intros key [<- | [<- | []]]; simpl; eauto.
Defined.
